(** * Room document store and edit application of the code service

    A shallow embedding of [apps/server/src/service/code-service.ts]:
    the per-room store [roomData], the range-replace edit applier inside
    [updateCode], and the socket handlers [syncCode] and [updateCode].

    Layout:
    - [JS]: the fragment of ECMAScript strings and arrays the service uses
      ([split], [join], [substring], [splice], [slice], [fill], assignment
      to [length] and to an index), with the exceptions the language
      defines for them;
    - [CodeService]: the functions of the source file, under their names;
    - the properties of the service.

    Numbers are integers ([Z]): the line and column numbers of an edit
    operation are editor coordinates, and fractions, [NaN] and the
    rounding of integers beyond 2^53 are left out.

    The language lets a string have up to 2^53 - 1 code units; the
    bound in force is the engine's, and much smaller. [applyEdit] is the
    applier as the language defines it;
    [applyEditWithin] is the applier on an engine with a given bound,
    and is used where the length of the new text depends on a line
    number of the operation rather than on the document and the text. *)

From Stdlib Require Import ZArith Lia Ascii.
From stdpp Require Import base list strings gmap.

Local Open Scope Z_scope.

(** ** ECMAScript fragment *)

Module JS.

(** Exceptions raised by the built-ins used in the service. *)
Inductive Error : Type :=
| RangeError (* "Invalid array length", "Invalid string length" *).

(** The result of evaluating code that may throw. *)
Inductive Outcome (A : Type) : Type :=
| Returned (a : A)
| Raised (e : Error).
Arguments Returned {A} a.
Arguments Raised {A} e.

(** Sequencing, [x ← c; k]: an exception in [c] skips [k]. *)
#[export] Instance outcome_bind : MBind Outcome := λ A B k x,
  match x with
  | Returned a => k a
  | Raised e => Raised e
  end.

(** *** Strings

    A string is a sequence of code units; [String.length], [substring]
    and [split] all count in code units, so the alphabet plays no role
    and the 8-bit characters of [string] stand for them. *)

Definition newline : ascii := "010"%char.

(** The one-character string ['\n']. *)
Definition NL : string := String newline "".

(** [s.length] *)
Definition strlen (s : string) : Z := Z.of_nat (String.length s).

Fixpoint str_take (n : nat) (s : string) : string :=
  match n, s with
  | S n, String c r => String c (str_take n r)
  | _, _ => ""
  end.

Fixpoint str_drop (n : nat) (s : string) : string :=
  match n, s with
  | S n, String _ r => str_drop n r
  | _, _ => s
  end.

(** [s.substring(start, end)]: both arguments are clamped into
    [0, s.length] and swapped when [start > end]. *)
Definition substring (s : string) (start end_ : Z) : string :=
  let len := strlen s in
  let finalStart := Z.min (Z.max start 0) len in
  let finalEnd := Z.min (Z.max end_ 0) len in
  let from := Z.min finalStart finalEnd in
  let to_ := Z.max finalStart finalEnd in
  str_take (Z.to_nat (to_ - from)) (str_drop (Z.to_nat from) s).

(** [s.substring(start)]: the end defaults to [s.length]. *)
Definition substring_from (s : string) (start : Z) : string :=
  substring s start (strlen s).

(** [s.split('\n')]: the pieces between newlines, at least one. The
    default limit of 2^32 - 1 pieces is not modelled: no engine holds a
    string that long. *)
Fixpoint split (s : string) : list string :=
  match s with
  | EmptyString => [""]
  | String c r =>
      if Ascii.eqb c newline then "" :: split r
      else match split r with
           | h :: t => String c h :: t
           | [] => [String c ""]
           end
  end.

(** *** Arrays

    An array is its list of elements; [None] is a hole (an index below
    [length] that was never written), which reads as [undefined]. *)

Abbreviation array := (list (option string)).

(** The largest length an array can have, 2^32 - 1. *)
Definition MAX_ARRAY_LENGTH : Z := 4294967295.

Definition of_strings (l : list string) : array := Some <$> l.

(** [a.length] *)
Definition alen (a : array) : Z := Z.of_nat (length a).

(** [a[i]]: [undefined] for a hole and for every [i] that is not an
    index of [a]. *)
Definition get (a : array) (i : Z) : option string :=
  if i <? 0 then None else mjoin (a !! Z.to_nat i).

(** [v || ''] for [v] a string or [undefined]: the empty string is
    falsy as well, and is replaced by itself. *)
Definition or_empty (v : option string) : string := default "" v.

(** [a[i] = v]. An index inside [a] overwrites; an index from [a.length]
    to 2^32 - 2 lengthens [a], leaving holes in between; any other
    number is not an array index and names an ordinary property, which
    neither [length] nor [join] sees. *)
Definition set (a : array) (i : Z) (v : string) : array :=
  if (i <? 0) || (MAX_ARRAY_LENGTH <=? i) then a
  else if i <? alen a then <[Z.to_nat i := Some v]> a
  else a ++ replicate (Z.to_nat (i - alen a)) None ++ [Some v].

(** [a.length = n]: truncates or lengthens with holes; raises
    [RangeError] unless [n] is an integer in [0, 2^32 - 1]. *)
Definition set_length (a : array) (n : Z) : Outcome array :=
  if (0 <=? n) && (n <=? MAX_ARRAY_LENGTH) then
    Returned (if n <=? alen a then take (Z.to_nat n) a
              else a ++ replicate (Z.to_nat (n - alen a)) None)
  else Raised RangeError.

(** A relative index argument of [fill], [slice] and [splice]: negative
    counts from the end, and the result is clamped into [0, len]. *)
Definition relative (i len : Z) : Z :=
  if i <? 0 then Z.max (len + i) 0 else Z.min i len.

(** [a.fill(v, start, end)] *)
Definition fill (a : array) (v : string) (start end_ : Z) : array :=
  let from := relative start (alen a) in
  let final := relative end_ (alen a) in
  if from <? final then
    take (Z.to_nat from) a ++ replicate (Z.to_nat (final - from)) (Some v)
      ++ drop (Z.to_nat final) a
  else a.

(** [l.slice(start, end)] on an array without holes. *)
Definition slice (l : list string) (start end_ : Z) : list string :=
  let len := Z.of_nat (length l) in
  let from := relative start len in
  let final := relative end_ len in
  take (Z.to_nat (final - from)) (drop (Z.to_nat from) l).

(** [a.splice(start, deleteCount, ...items)], as the array it leaves in
    [a]. Raises [RangeError] when the items added take the length past
    2^32 - 1 (an array is never longer than that to begin with, so a
    call that adds no more than it deletes cannot raise). *)
Definition splice (a : array) (start deleteCount : Z) (items : list string)
  : Outcome array :=
  let len := alen a in
  let actualStart := relative start len in
  let actualDeleteCount := Z.max 0 (Z.min deleteCount (len - actualStart)) in
  let itemCount := Z.of_nat (length items) in
  if (actualDeleteCount <? itemCount)
     && (MAX_ARRAY_LENGTH <? len - actualDeleteCount + itemCount)
  then Raised RangeError
  else Returned (take (Z.to_nat actualStart) a ++ of_strings items
                   ++ drop (Z.to_nat (actualStart + actualDeleteCount)) a).

(** [l.join('\n')] on strings. *)
Fixpoint join_strings (l : list string) : string :=
  match l with
  | [] => ""
  | x :: r =>
      match r with
      | [] => x
      | _ :: _ => x +:+ NL +:+ join_strings r
      end
  end.

(** [a.join('\n')]: holes and [undefined] print as the empty string.
    The text is taken as it stands, however long it is. *)
Definition join (a : array) : string := join_strings (or_empty <$> a).

(** [a.join('\n')] on an engine whose strings hold at most [maxLength]
    code units: a longer text is not built, and the call raises
    [RangeError] (Invalid string length). The language allows
    2^53 - 1 code units; the bound in force is the engine's. *)
Definition join_within (maxLength : Z) (a : array) : Outcome string :=
  let s := join a in
  if strlen s <=? maxLength then Returned s else Raised RangeError.

(** [s.endsWith(searchString)] *)
Definition endsWith (s searchString : string) : bool :=
  let start := strlen s - strlen searchString in
  if start <? 0 then false
  else bool_decide (substring s start (strlen s) = searchString).

(** [l.includes(x)] on an array of strings. *)
Definition includes (l : list string) (x : string) : bool :=
  bool_decide (x ∈ l).

End JS.

(** ** The code service *)

Module CodeService.
Import JS.

(** [EditOp], from [@codex/types/operation]: the tuple
    [[txt, startLnNum, startCol, endLnNum, endCol]]. *)
Definition EditOp : Type := string * Z * Z * Z * Z.

(** [spliceString(original, start, end, insert)] *)
Definition spliceString (original : string) (start end_ : Z) (insert : string)
  : string :=
  if (start =? end_) && bool_decide (insert = "") then original
  else if (start =? 0) && (end_ =? strlen original) then insert
  else substring original 0 start +:+ insert +:+ substring_from original end_.

(** The lines of [updateCode] that lengthen [lines] to [startLnNum]
    entries:
    [const maxLine = Math.max(lines.length, startLnNum);
     if (maxLine > lines.length) { lines.length = maxLine;
       lines.fill('', lines.length, maxLine); }]
    ([fill] runs after the assignment, from the new length on). *)
Definition padLines (lines : array) (startLnNum : Z) : Outcome array :=
  let maxLine := Z.max (alen lines) startLnNum in
  if alen lines <? maxLine then
    lines ← set_length lines maxLine;
    Returned (fill lines "" (alen lines) maxLine)
  else Returned lines.

(** The branch [startLnNum === endLnNum] of [updateCode]. *)
Definition editSingleLine (lines : array) (txt : string)
    (startLnNum startCol endCol : Z) : array :=
  let lineIndex := startLnNum - 1 in
  let line := or_empty (get lines lineIndex) in
  let safeStartCol := Z.max 0 (Z.min (startCol - 1) (strlen line)) in
  let safeEndCol := Z.max 0 (Z.min (endCol - 1) (strlen line)) in
  set lines lineIndex (spliceString line safeStartCol safeEndCol txt).

(** The last branch of [updateCode], for an edit over several lines. *)
Definition editMultiLine (lines : array) (txt : string)
    (startLnNum startCol endLnNum endCol : Z) : Outcome array :=
  let textLines := split txt in
  let startLineIndex := startLnNum - 1 in
  let endLineIndex := endLnNum - 1 in
  let startLine := or_empty (get lines startLineIndex) in
  let endLine := or_empty (get lines endLineIndex) in
  let safeStartCol := Z.min (Z.max 0 (startCol - 1)) (strlen startLine) in
  let safeEndCol := Z.min (Z.max 0 (endCol - 1)) (strlen endLine) in
  let newStartLine :=
    spliceString startLine safeStartCol (strlen startLine)
      (textLines !!! 0%nat) in
  let newEndLine :=
    spliceString endLine 0 safeEndCol
      (textLines !!! (length textLines - 1)%nat) in
  let newLinesCount := Z.of_nat (length textLines) in
  let removedLinesCount := endLineIndex - startLineIndex + 1 in
  if newLinesCount =? 2 then
    let lines := set lines startLineIndex newStartLine in
    let lines := set lines (startLineIndex + 1) newEndLine in
    if 2 <? removedLinesCount then
      splice lines (startLineIndex + 2) (removedLinesCount - 2) []
    else Returned lines
  else
    let newLines :=
      [newStartLine] ++ slice textLines 1 (-1) ++ [newEndLine] in
    splice lines startLineIndex removedLinesCount newLines.

(** The body of [updateCode] from the destructuring of [operation] to
    [lines.join('\n')]: the new text of the room, or the exception
    raised on the way. *)
Definition applyEdit (currentCode : string) (operation : EditOp)
  : Outcome string :=
  let '(txt, startLnNum, startCol, endLnNum, endCol) := operation in
  let lines := of_strings (split currentCode) in
  lines ← padLines lines startLnNum;
  let isEmptyLineDeletion :=
    bool_decide (txt = "") && (startLnNum <? endLnNum)
      && (startCol =? 1) && (endCol =? 1) in
  lines ←
    (if isEmptyLineDeletion then
       splice lines (startLnNum - 1) (endLnNum - startLnNum) []
     else if startLnNum =? endLnNum then
       Returned (editSingleLine lines txt startLnNum startCol endCol)
     else editMultiLine lines txt startLnNum startCol endLnNum endCol);
  Returned (join lines).

(** The same lines of [updateCode] on an engine whose strings hold at
    most [maxLength] code units. Every line the branches build is made
    of pieces of the document and of the text of the operation;
    [lines.join] is where a start line far past the end of the document
    makes a long text out of a short one. *)
Definition applyEditWithin (maxLength : Z) (currentCode : string)
    (operation : EditOp) : Outcome string :=
  let '(txt, startLnNum, startCol, endLnNum, endCol) := operation in
  let lines := of_strings (split currentCode) in
  lines ← padLines lines startLnNum;
  let isEmptyLineDeletion :=
    bool_decide (txt = "") && (startLnNum <? endLnNum)
      && (startCol =? 1) && (endCol =? 1) in
  lines ←
    (if isEmptyLineDeletion then
       splice lines (startLnNum - 1) (endLnNum - startLnNum) []
     else if startLnNum =? endLnNum then
       Returned (editSingleLine lines txt startLnNum startCol endCol)
     else editMultiLine lines txt startLnNum startCol endLnNum endCol);
  join_within maxLength lines.

(** *** The room store and the wire

    [roomData] is the module-level [Map]; the socket layer is seen
    through what the handlers emit. A [World] holds the map and the
    [trace] of the actions performed on either, oldest first. *)

(** [RoomData] *)
Record RoomData : Type := { code : string; langId : string }.

Definition DEFAULT_LANG_ID : string := "html".

(** The members of [CodeServiceMsg] ([@codex/types/message]) named in
    the server. *)
Inductive CodeServiceMsg : Type :=
| SYNC_CODE | UPDATE_CODE | UPDATE_CURSOR | SYNC_LANG | UPDATE_LANG
| EXEC | UPDATE_TERM.

(** The argument of an emitted event. *)
Inductive Payload : Type :=
| Text (s : string)
| Operation (op : EditOp).

(** The [socket.io] socket of a connection, as far as the service looks
    at it. *)
Record Socket : Type := { id : string }.

Inductive Action : Type :=
| EmitTo (target : string) (msg : CodeServiceMsg) (arg : Payload)
    (* io.to(target).emit(msg, arg), target the id of a connection *)
| EmitToOthers (sender : Socket) (room : string) (msg : CodeServiceMsg)
    (arg : Payload)
    (* sender.to(room).emit(msg, arg) *)
| MapGet (roomID : string)                  (* roomData.get(roomID) *)
| MapSet (roomID : string) (data : RoomData) (* roomData.set(roomID, data) *)
| MapDelete (roomID : string)               (* roomData.delete(roomID) *)
| AssignCode (roomID : string) (v : string)
    (* data.code = v, data the object stored under roomID *)
| AssignLangId (roomID : string) (v : string)
    (* data.langId = v, data the object stored under roomID *).

Record World : Type :=
  { roomData : gmap string RoomData; trace : list Action }.

(** A computation on the world that may throw; the world it leaves
    behind records what happened before the exception. *)
Definition Handler (A : Type) : Type := World → World * Outcome A.

#[export] Instance handler_ret : MRet Handler := λ A a w, (w, Returned a).

#[export] Instance handler_bind : MBind Handler := λ A B k c w,
  match c w with
  | (w', Returned a) => k a w'
  | (w', Raised e) => (w', Raised e)
  end.

(** Evaluation of an expression that may throw. *)
Definition eval {A} (o : Outcome A) : Handler A := λ w, (w, o).

Definition record (a : Action) (w : World) : World :=
  {| roomData := roomData w; trace := trace w ++ [a] |}.

Definition emit_to (target : string) (msg : CodeServiceMsg) (arg : Payload)
  : Handler () :=
  λ w, (record (EmitTo target msg arg) w, Returned ()).

Definition emit_to_others (sender : Socket) (room : string)
    (msg : CodeServiceMsg) (arg : Payload) : Handler () :=
  λ w, (record (EmitToOthers sender room msg arg) w, Returned ()).

Definition map_get (roomID : string) : Handler (option RoomData) :=
  λ w, (record (MapGet roomID) w, Returned (roomData w !! roomID)).

Definition map_set (roomID : string) (data : RoomData) : Handler () :=
  λ w, ({| roomData := <[roomID := data]> (roomData w);
           trace := trace w ++ [MapSet roomID data] |}, Returned ()).

Definition map_delete (roomID : string) : Handler () :=
  λ w, ({| roomData := delete roomID (roomData w);
           trace := trace w ++ [MapDelete roomID] |}, Returned ()).

(** [data.code = v] where [data] is the object held by the map under
    [roomID]: the map sees the assignment. *)
Definition assign_code (roomID : string) (v : string) : Handler () :=
  λ w, ({| roomData :=
             alter (λ d, {| code := v; langId := langId d |}) roomID
               (roomData w);
           trace := trace w ++ [AssignCode roomID v] |}, Returned ()).

(** [data.langId = v], likewise. *)
Definition assign_langId (roomID : string) (v : string) : Handler () :=
  λ w, ({| roomData :=
             alter (λ d, {| code := code d; langId := v |}) roomID
               (roomData w);
           trace := trace w ++ [AssignLangId roomID v] |}, Returned ()).

(** [v || d] for [v] a string or [undefined]: [undefined] and the empty
    string are falsy. *)
Definition or_else (v : option string) (d : string) : string :=
  match v with
  | Some s => if bool_decide (s = "") then d else s
  | None => d
  end.

(** The string a truthy [string | undefined] holds. *)
Definition truthy (v : option string) : option string :=
  match v with
  | Some s => if bool_decide (s = "") then None else Some s
  | None => None
  end.

(** [roomExists(roomID)]: [roomData.has(roomID)], a query that is no
    action on the map. *)
Definition roomExists (roomID : string) : Handler bool :=
  λ w, (w, Returned (bool_decide (is_Some (roomData w !! roomID)))).

(** [initializeRoom(roomID)]; the object returned is the one the map
    holds under [roomID]. *)
Definition initializeRoom (roomID : string) : Handler RoomData :=
  data ← map_get roomID;
  match data with
  | Some data => mret data
  | None =>
      let data := {| code := ""; langId := DEFAULT_LANG_ID |} in
      _ ← map_set roomID data;
      mret data
  end.

(** [getCode(roomID)] *)
Definition getCode (roomID : string) : Handler string :=
  data ← map_get roomID;
  mret (or_else (code <$> data) "").

(** [getLang(roomID)] *)
Definition getLang (roomID : string) : Handler string :=
  data ← map_get roomID;
  mret (or_else (langId <$> data) DEFAULT_LANG_ID).

(** [setLang(roomID, langId)] *)
Definition setLang (roomID : string) (langId : string) : Handler () :=
  _ ← initializeRoom roomID;
  assign_langId roomID langId.

(** The last two statements of [updateCode]:
    [const data = initializeRoom(roomID); data.code = updatedCode]. *)
Definition storeCode (roomID : string) (updatedCode : string) : Handler () :=
  _ ← initializeRoom roomID;
  assign_code roomID updatedCode.

(** [deleteRoom(roomID)] *)
Definition deleteRoom (roomID : string) : Handler () :=
  map_delete roomID.

Section Handlers.

(** [getUserRoom] of the room service and [getCustomId] of the user
    service: the room a connection is in and the identity registered
    for a connection id, or [undefined]. *)
Variable getUserRoom : Socket → option string.
Variable getCustomId : string → option string.

(** [syncCode(socket, io)] *)
Definition syncCode (socket : Socket) : Handler () :=
  let roomID := getUserRoom socket in
  let customId := getCustomId (id socket) in
  match truthy roomID, truthy customId with
  | Some roomID, Some _ =>
      code ← getCode roomID;
      emit_to (id socket) SYNC_CODE (Text code)
  | _, _ => mret ()
  end.

(** [updateCode(socket, operation)] *)
Definition updateCode (socket : Socket) (operation : EditOp) : Handler () :=
  let roomID := getUserRoom socket in
  let customId := getCustomId (id socket) in
  match truthy customId, truthy roomID with
  | Some _, Some roomID =>
      _ ← emit_to_others socket roomID UPDATE_CODE (Operation operation);
      currentCode ← getCode roomID;
      updatedCode ← eval (applyEdit currentCode operation);
      storeCode roomID updatedCode
  | _, _ => mret ()
  end.

(** [syncLang(socket, io)] *)
Definition syncLang (socket : Socket) : Handler () :=
  match truthy (getUserRoom socket) with
  | None => mret ()
  | Some roomID =>
      match truthy (getCustomId (id socket)) with
      | Some _ =>
          langId ← getLang roomID;
          emit_to (id socket) UPDATE_LANG (Text langId)
      | None => mret ()
      end
  end.

(** [updateLang(socket, langId)] *)
Definition updateLang (socket : Socket) (langId : string) : Handler () :=
  match truthy (getUserRoom socket) with
  | None => mret ()
  | Some roomID =>
      match truthy (getCustomId (id socket)) with
      | Some _ =>
          _ ← setLang roomID langId;
          emit_to_others socket roomID UPDATE_LANG (Text langId)
      | None => mret ()
      end
  end.

End Handlers.

(** *** Delivery

    What [socket.io] does with an emitted event, given the connections
    joined to each room: [io.to(id)] reaches the connection [id],
    [socket.to(room)] every connection in [room] but [socket]. *)
Definition recipients (members : string → list string) (a : Action)
  : list string :=
  match a with
  | EmitTo target _ _ => [target]
  | EmitToOthers sender room _ _ =>
      filter (λ c, c ≠ id sender) (members room)
  | _ => []
  end.

(** The events a connection receives from a trace, in order. *)
Definition inbox (members : string → list string) (c : string)
    (t : list Action) : list Action :=
  filter (λ a, c ∈ recipients members a) t.

End CodeService.

(** ** The server entry point

    The origin check of [apps/server/src/index.ts]. *)

Module Server.
Import JS.

Definition allowedOrigins : list string :=
  ["http://localhost:3000";
   "https://code-x-real-time-code-editor-with-v.vercel.app"].

(** [isAllowedOrigin(origin)], [origin] a string or [undefined]:
    [!origin || allowedOrigins.includes(origin)
      || origin.endsWith('.vercel.app')]. *)
Definition isAllowedOrigin (origin : option string) : bool :=
  match origin with
  | None => true
  | Some origin =>
      bool_decide (origin = "") || includes allowedOrigins origin
        || endsWith origin ".vercel.app"
  end.

End Server.

Import JS CodeService Server.

(** ** Notions used in the statements *)

(** The last line of a text. *)
Definition lastLine (s : string) : string := List.last (split s) "".

(** A column number brought into the columns of [line], from 1 to the
    column after its last character. *)
Definition clampColumn (line : string) (c : Z) : Z :=
  Z.max 1 (Z.min c (strlen line + 1)).

(** The line of a document with number [n], empty when there is none. *)
Definition lineAt (doc : string) (n : Z) : string :=
  if n <? 1 then "" else default "" (split doc !! Z.to_nat (n - 1)).

(** [line] with the stretch from column [sc] up to, not including,
    column [ec] replaced by [txt], both columns brought into the line
    first. *)
Definition editedLine (line txt : string) (sc ec : Z) : string :=
  str_take (Z.to_nat (clampColumn line sc - 1)) line +:+ txt
    +:+ str_drop (Z.to_nat (clampColumn line ec - 1)) line.

(** [s] holds no newline. *)
Fixpoint single_line (s : string) : bool :=
  match s with
  | "" => true
  | String c r => negb (Ascii.eqb c newline) && single_line r
  end.

(** The number of lines of a text. *)
Definition lineCount (s : string) : Z := Z.of_nat (length (split s)).

(** The lines [l], with empty lines added at the end up to [n] lines. *)
Definition padded (l : list string) (n : Z) : list string :=
  l ++ replicate (Z.to_nat (n - Z.of_nat (length l))) "".

(** The lines [l] without the lines numbered from [s] up to, not
    including, [e] (counted from 1). *)
Definition without_lines (l : list string) (s e : Z) : list string :=
  take (Z.to_nat (s - 1)) l ++ drop (Z.to_nat (e - 1)) l.

(** The text a document holds from the position
    [(startLine, startColumn)] up to, not including, the position
    [(endLine, endColumn)]; lines and columns count from 1, and the column
    after the last character of a line is a position of that line. On
    one line, an end column before the start column leaves nothing in
    between: the text is empty. [None] when a position is not in the
    document or the end line comes before the start line. *)
Definition rangeText (doc : string)
    (startLine startColumn endLine endColumn : Z) : option string :=
  let lines := split doc in
  if bool_decide (1 ≤ startLine ≤ endLine) then
    first ← lines !! Z.to_nat (startLine - 1);
    last ← lines !! Z.to_nat (endLine - 1);
    if bool_decide (1 ≤ startColumn ≤ strlen first + 1
                    ∧ 1 ≤ endColumn ≤ strlen last + 1) then
      if bool_decide (startLine = endLine) then
        Some (str_take (Z.to_nat (endColumn - startColumn))
                (str_drop (Z.to_nat (startColumn - 1)) first))
      else
        Some (join_strings
                (str_drop (Z.to_nat (startColumn - 1)) first
                   :: take (Z.to_nat (endLine - startLine - 1))
                        (drop (Z.to_nat startLine) lines)
                   ++ [str_take (Z.to_nat (endColumn - 1)) last]))
    else None
  else None.

(** The code units of the lines [l], taken together. *)
Definition chars (l : list string) : Z :=
  foldr (λ x n, strlen x + n) 0 l.

(** Every entry of the array prints as a single line. *)
Definition oneLiners (a : array) : Prop :=
  Forall (λ x, single_line (or_empty x) = true) a.

(** The text and the language tag a store holds for a room; a room
    without an entry stands for the empty text and the default tag. *)
Definition textOf (m : gmap string RoomData) (roomID : string) : string :=
  match m !! roomID with Some data => code data | None => "" end.

Definition langOf (m : gmap string RoomData) (roomID : string) : string :=
  match m !! roomID with
  | Some data => langId data
  | None => DEFAULT_LANG_ID
  end.

(** The actions on [roomData], as opposed to emissions. *)
Definition isStoreAction (a : Action) : Prop :=
  match a with
  | EmitTo _ _ _ | EmitToOthers _ _ _ _ => False
  | _ => True
  end.

(** Boolean comparisons on [Z] in the hypotheses, as propositions. *)
Ltac zbool :=
  repeat match goal with
    | H : (_ && _) = true |- _ => apply andb_true_iff in H as [? ?]
    | H : (_ || _) = false |- _ => apply orb_false_iff in H as [? ?]
    | H : (_ <? _) = true |- _ => apply Z.ltb_lt in H
    | H : (_ <? _) = false |- _ => apply Z.ltb_ge in H
    | H : (_ <=? _) = true |- _ => apply Z.leb_le in H
    | H : (_ <=? _) = false |- _ => apply Z.leb_gt in H
    | H : (_ =? _) = true |- _ => apply Z.eqb_eq in H
    | H : (_ =? _) = false |- _ => apply Z.eqb_neq in H
    | H : (_ && _) = false |- _ => apply andb_false_iff in H as [?|?]
    | H : (_ || _) = true |- _ => apply orb_true_iff in H as [?|?]
    end.

(** ** Facts about strings *)

Section StringFacts.

Implicit Types (s t u : string) (l : list string).

Lemma sapp_nil_l s : "" +:+ s = s.
Proof. reflexivity. Qed.

Lemma sapp_cons c s t : String c s +:+ t = String c (s +:+ t).
Proof. reflexivity. Qed.

Lemma sapp_nil_r s : s +:+ "" = s.
Proof. induction s as [|c s IH]; [done|]. by rewrite sapp_cons, IH. Qed.

Lemma sapp_assoc s t u : (s +:+ t) +:+ u = s +:+ t +:+ u.
Proof.
  induction s as [|c s IH]; [done|]. by rewrite !sapp_cons, IH.
Qed.

Lemma strlen_nonneg s : 0 ≤ strlen s.
Proof. unfold strlen. lia. Qed.

Lemma strlen_nil : strlen "" = 0.
Proof. reflexivity. Qed.

Lemma strlen_cons c s : strlen (String c s) = 1 + strlen s.
Proof. unfold strlen. simpl String.length. lia. Qed.

Lemma strlen_app s t : strlen (s +:+ t) = strlen s + strlen t.
Proof.
  induction s as [|c s IH]; [done|].
  rewrite sapp_cons, !strlen_cons, IH. lia.
Qed.

Lemma strlen_0 s : strlen s = 0 → s = "".
Proof.
  destruct s; [done|]. rewrite strlen_cons.
  pose proof (strlen_nonneg s). lia.
Qed.

Lemma str_take_app s t : str_take (String.length s) (s +:+ t) = s.
Proof.
  induction s as [|c s IH]; [done|]. rewrite sapp_cons. simpl. by rewrite IH.
Qed.

Lemma str_drop_app s t : str_drop (String.length s) (s +:+ t) = t.
Proof.
  induction s as [|c s IH]; [by destruct t|]. by rewrite sapp_cons.
Qed.

Lemma str_take_all s : str_take (String.length s) s = s.
Proof. rewrite <-(sapp_nil_r s) at 2. apply str_take_app. Qed.

Lemma str_take_drop n s : str_take n s +:+ str_drop n s = s.
Proof.
  revert s. induction n as [|n IH]; intros [|c s]; simpl; try done.
  by rewrite sapp_cons, IH.
Qed.

Lemma length_str_take n s :
  (n ≤ String.length s)%nat → String.length (str_take n s) = n.
Proof.
  revert s. induction n as [|n IH]; intros [|c s]; simpl; try done; [lia|].
  intros. rewrite IH; lia.
Qed.

Lemma length_str_drop n s :
  String.length (str_drop n s) = (String.length s - n)%nat.
Proof.
  revert s. induction n as [|n IH]; intros [|c s]; simpl; try done.
Qed.

(** [substring(0, n)] of a string that starts with [n] code units [s]
    is [s]. *)
Lemma substring_prefix s t : substring (s +:+ t) 0 (strlen s) = s.
Proof.
  unfold substring. rewrite strlen_app.
  pose proof (strlen_nonneg s). pose proof (strlen_nonneg t).
  replace (Z.min (Z.max 0 0) (strlen s + strlen t)) with 0 by lia.
  replace (Z.min (Z.max (strlen s) 0) (strlen s + strlen t))
    with (strlen s) by lia.
  replace (Z.max 0 (strlen s) - Z.min 0 (strlen s)) with (strlen s) by lia.
  replace (Z.min 0 (strlen s)) with 0 by lia.
  unfold strlen. rewrite Nat2Z.id. simpl. apply str_take_app.
Qed.

(** [substring(n)] drops the first [n] code units. *)
Lemma substring_from_suffix s t : substring_from (s +:+ t) (strlen s) = t.
Proof.
  unfold substring_from, substring. rewrite strlen_app.
  pose proof (strlen_nonneg s). pose proof (strlen_nonneg t).
  replace (Z.min (Z.max (strlen s) 0) (strlen s + strlen t))
    with (strlen s) by lia.
  replace (Z.min (Z.max (strlen s + strlen t) 0) (strlen s + strlen t))
    with (strlen s + strlen t) by lia.
  replace (Z.max (strlen s) (strlen s + strlen t)
           - Z.min (strlen s) (strlen s + strlen t)) with (strlen t) by lia.
  replace (Z.min (strlen s) (strlen s + strlen t)) with (strlen s) by lia.
  unfold strlen. rewrite !Nat2Z.id, str_drop_app. apply str_take_all.
Qed.

(** With [start ≤ end] inside the string, [spliceString] puts [insert]
    in the place of the code units from [start] to [end], on all three
    of its paths. *)
Lemma spliceString_replaces (s t u insert : string) :
  spliceString (s +:+ t +:+ u) (strlen s) (strlen s + strlen t) insert
  = s +:+ insert +:+ u.
Proof.
  unfold spliceString.
  pose proof (strlen_nonneg s). pose proof (strlen_nonneg t).
  pose proof (strlen_nonneg u).
  destruct (strlen s =? strlen s + strlen t) eqn:E1;
    [apply Z.eqb_eq in E1|]; simpl.
  - assert (t = "") as -> by (apply strlen_0; lia).
    rewrite sapp_nil_l, strlen_nil, Z.add_0_r.
    case_bool_decide as E2; [by subst|].
    rewrite strlen_app.
    destruct ((strlen s =? 0) && (strlen s =? strlen s + strlen u)) eqn:E3.
    + apply andb_true_iff in E3 as [E3 E4].
      apply Z.eqb_eq in E3, E4.
      assert (s = "") as -> by (by apply strlen_0).
      assert (u = "") as -> by (apply strlen_0; lia).
      by rewrite sapp_nil_r.
    + by rewrite substring_prefix, substring_from_suffix.
  - rewrite !strlen_app.
    destruct ((strlen s =? 0)
              && (strlen s + strlen t =? strlen s + (strlen t + strlen u)))
      eqn:E3.
    + apply andb_true_iff in E3 as [E3 E4].
      apply Z.eqb_eq in E3, E4.
      assert (s = "") as -> by (by apply strlen_0).
      assert (u = "") as -> by (apply strlen_0; lia).
      by rewrite sapp_nil_r.
    + rewrite substring_prefix.
      rewrite <-(sapp_assoc s t u), <-strlen_app.
      by rewrite substring_from_suffix.
Qed.

End StringFacts.

(** ** Facts about [split] and [join] *)

Section SplitJoin.

Implicit Types (s t u : string) (l k q : list string).

Lemma split_nonempty s : split s ≠ [].
Proof.
  destruct s as [|c r]; simpl; [done|].
  destruct (Ascii.eqb c newline); [done|]. by destruct (split r).
Qed.

Lemma split_cons s : ∃ h q, split s = h :: q.
Proof.
  pose proof (split_nonempty s). destruct (split s) as [|h q]; [done|eauto].
Qed.

Lemma join_strings_cons_cons s t l :
  join_strings (s :: t :: l) = s +:+ NL +:+ join_strings (t :: l).
Proof. reflexivity. Qed.

Lemma join_strings_cons c s l :
  join_strings (String c s :: l) = String c (join_strings (s :: l)).
Proof. destruct l; [done|]. by rewrite !join_strings_cons_cons. Qed.

Lemma join_strings_nil_cons s l :
  join_strings ("" :: s :: l) = String newline (join_strings (s :: l)).
Proof. reflexivity. Qed.

(** Joining the pieces of a string gives the string back. *)
Lemma join_split s : join_strings (split s) = s.
Proof.
  induction s as [|c r IH]; [done|]. simpl.
  destruct (split_cons r) as (h & q & E). rewrite E in *.
  destruct (Ascii.eqb_spec c newline) as [->|_].
  - by rewrite join_strings_nil_cons, IH.
  - by rewrite join_strings_cons, IH.
Qed.

(** Every piece of [split] is free of newlines. *)
Lemma split_single_line s : Forall (λ x, single_line x = true) (split s).
Proof.
  induction s as [|c r IH]; simpl; [by repeat constructor|].
  destruct (Ascii.eqb c newline) eqn:E; [by constructor|].
  destruct (split r) as [|h q]; [by repeat constructor; simpl; rewrite E|].
  inversion_clear IH. constructor; [|done]. simpl. by rewrite E.
Qed.

Lemma split_of_single_line s : single_line s = true → split s = [s].
Proof.
  induction s as [|c r IH]; simpl; [done|].
  intros [E1 E2]%andb_true_iff. apply negb_true_iff in E1.
  by rewrite E1, IH.
Qed.

(** The pieces of a concatenation: the last piece of the left string
    and the first piece of the right one fuse. *)
Lemma split_app s t l a b k :
  split s = l ++ [a] → split t = b :: k →
  split (s +:+ t) = l ++ (a +:+ b) :: k.
Proof.
  revert l a. induction s as [|c r IH]; intros l a Hs Ht.
  - destruct l as [|? [|]]; simplify_eq/=. by rewrite sapp_nil_l.
  - rewrite sapp_cons. simpl in *.
    destruct (Ascii.eqb c newline).
    + destruct l as [|x l]; simplify_eq/=.
      { by destruct (split_nonempty r). }
      by rewrite (IH l a).
    + destruct (split r) as [|h q] eqn:Er; [by destruct (split_nonempty r)|].
      destruct l as [|x l]; simplify_eq/=.
      * by rewrite (IH [] h).
      * by rewrite (IH (h :: l) a).
Qed.

(** Splitting a join of newline-free pieces recovers the pieces. *)
Lemma split_join l :
  l ≠ [] → Forall (λ x, single_line x = true) l →
  split (join_strings l) = l.
Proof.
  induction l as [|x l IH]; [done|]. intros _ Hl.
  inversion_clear Hl as [|?? Hx Hl'].
  destruct l as [|y l]; [by apply split_of_single_line|].
  rewrite join_strings_cons_cons.
  erewrite (split_app x _ [] x "" (y :: l)).
  - by rewrite sapp_nil_r.
  - by apply split_of_single_line.
  - change (split (NL +:+ ?s)) with ("" :: split s). by rewrite IH.
Qed.

Lemma length_split_join l :
  l ≠ [] → Forall (λ x, single_line x = true) l →
  length (split (join_strings l)) = length l.
Proof. intros. by rewrite split_join. Qed.

Lemma single_line_app s t :
  single_line (s +:+ t) = single_line s && single_line t.
Proof.
  induction s as [|c s IH]; [done|].
  rewrite sapp_cons. simpl. by rewrite IH, andb_assoc.
Qed.

End SplitJoin.

(** ** Facts about arrays *)

Section ArrayFacts.

Implicit Types (a : array) (l k : list string).

Lemma or_empty_of_strings l : or_empty <$> of_strings l = l.
Proof.
  unfold of_strings. rewrite <-list_fmap_compose. apply list_fmap_id.
Qed.

Lemma join_of_strings l : join (of_strings l) = join_strings l.
Proof. unfold join. by rewrite or_empty_of_strings. Qed.

Lemma alen_of_strings l : alen (of_strings l) = Z.of_nat (length l).
Proof. unfold alen, of_strings. by rewrite length_fmap. Qed.

Lemma alen_nonneg a : 0 ≤ alen a.
Proof. unfold alen. lia. Qed.

Lemma alen_app a1 a2 : alen (a1 ++ a2) = alen a1 + alen a2.
Proof. unfold alen. rewrite length_app. lia. Qed.

Lemma of_strings_app l k : of_strings (l ++ k) = of_strings l ++ of_strings k.
Proof. apply fmap_app. Qed.

(** Reading the entry that follows [l]. *)
Lemma get_middle l x k :
  get (of_strings (l ++ x :: k)) (Z.of_nat (length l)) = Some x.
Proof.
  unfold get, of_strings.
  destruct (Z.of_nat (length l) <? 0) eqn:E; [zbool; lia|].
  rewrite Nat2Z.id, list_lookup_fmap, list_lookup_middle; done.
Qed.

(** Writing back the value an entry holds changes nothing. *)
Lemma set_same a i v : get a i = Some v → set a i v = a.
Proof.
  unfold get, set. destruct (i <? 0) eqn:E; [done|]. simpl.
  destruct (a !! Z.to_nat i) as [[w|]|] eqn:Ei; simpl; try done.
  intros [= ->]. destruct (MAX_ARRAY_LENGTH <=? i); [done|].
  apply lookup_lt_Some in Ei as Hlt.
  destruct (i <? alen a) eqn:E2; [by apply list_insert_id|].
  unfold alen in E2. zbool. lia.
Qed.

(** An array is lengthened with holes up to [n] entries, unless [n] is
    no array length. *)
Lemma padLines_returns a n :
  n ≤ MAX_ARRAY_LENGTH →
  padLines a n = Returned (a ++ replicate (Z.to_nat (n - alen a)) None).
Proof.
  intros Hn. unfold padLines. pose proof (alen_nonneg a).
  destruct (alen a <? Z.max (alen a) n) eqn:E; zbool.
  - assert (Z.max (alen a) n = n) as -> by lia.
    unfold set_length.
    destruct ((0 <=? n) && (n <=? MAX_ARRAY_LENGTH)) eqn:E1;
      [|zbool; lia].
    destruct (n <=? alen a) eqn:E2; [zbool; lia|].
    unfold mbind, outcome_bind. f_equal.
    set (a' := a ++ _). assert (alen a' = n) as Ha'.
    { unfold a'. rewrite alen_app. unfold alen at 2.
      rewrite length_replicate. lia. }
    unfold fill. rewrite Ha'. unfold relative.
    destruct (n <? 0); by rewrite Z.ltb_irrefl.
  - replace (Z.to_nat (n - alen a)) with 0%nat by lia.
    by rewrite app_nil_r.
Qed.

Lemma padLines_raises a n :
  alen a < n → MAX_ARRAY_LENGTH < n → padLines a n = Raised RangeError.
Proof.
  intros H1 H2. unfold padLines.
  destruct (alen a <? Z.max (alen a) n) eqn:E; zbool; [|lia].
  assert (Z.max (alen a) n = n) as -> by lia.
  unfold set_length.
  by destruct ((0 <=? n) && (n <=? MAX_ARRAY_LENGTH)) eqn:E1;
    [zbool; lia|].
Qed.

(** Deleting from entry [s] up to, not including, entry [e] (counted
    from 1). *)
Lemma splice_delete a s e :
  1 ≤ s ≤ alen a → s < e →
  splice a (s - 1) (e - s) []
  = Returned (take (Z.to_nat (s - 1)) a ++ drop (Z.to_nat (e - 1)) a).
Proof.
  intros Hs He. unfold splice, relative.
  destruct (s - 1 <? 0) eqn:E; [zbool; lia|].
  replace (Z.min (s - 1) (alen a)) with (s - 1) by lia.
  set (d := Z.max 0 _).
  destruct ((d <? Z.of_nat (length (@nil string))) && _) eqn:E1.
  { simpl in E1. zbool. lia. }
  simpl. f_equal. f_equal.
  destruct (decide (e - 1 ≤ alen a)).
  - f_equal. lia.
  - rewrite !drop_ge; [done|unfold alen in *; lia..].
Qed.

(** A call of [splice] inside the array and within the length limit. *)
Lemma splice_in_range a start deleteCount l :
  0 ≤ start → 0 ≤ deleteCount → start + deleteCount ≤ alen a →
  Z.of_nat (length l) ≤ deleteCount
  ∨ alen a - deleteCount + Z.of_nat (length l) ≤ MAX_ARRAY_LENGTH →
  splice a start deleteCount l
  = Returned (take (Z.to_nat start) a ++ of_strings l
                ++ drop (Z.to_nat (start + deleteCount)) a).
Proof.
  intros H1 H2 H3 H4. unfold splice, relative.
  destruct (start <? 0) eqn:E; zbool; [lia|].
  replace (Z.min start (alen a)) with start by lia.
  replace (Z.max 0 (Z.min deleteCount (alen a - start)))
    with deleteCount by lia.
  by destruct (_ && _) eqn:E1; [zbool; lia|].
Qed.

Lemma alen_set_in_range a i v : i < alen a → alen (set a i v) = alen a.
Proof.
  intros H. unfold set. destruct (_ || _); [done|].
  destruct (i <? alen a) eqn:E; zbool; [|lia].
  unfold alen. by rewrite length_insert.
Qed.

Lemma length_slice_inner l :
  (2 ≤ length l)%nat → length (slice l 1 (-1)) = (length l - 2)%nat.
Proof.
  intros H. unfold slice, relative.
  change (-1 <? 0) with true. change (1 <? 0) with false. cbv iota.
  rewrite length_take, length_drop. lia.
Qed.

End ArrayFacts.

(** ** The edit applier *)

Section Applier.

Implicit Types (doc txt : string) (l : list string).

Lemma padded_in_range l n : n ≤ Z.of_nat (length l) → padded l n = l.
Proof.
  intros. unfold padded.
  replace (Z.to_nat _) with 0%nat by lia. apply app_nil_r.
Qed.

Lemma or_empty_padLines l n :
  or_empty <$> (of_strings l ++ replicate (Z.to_nat (n - alen (of_strings l))) None)
  = padded l n.
Proof.
  rewrite fmap_app, or_empty_of_strings, fmap_replicate, alen_of_strings.
  done.
Qed.

(** A start line no array can reach makes the applier throw at
    [lines.length = maxLine]. *)
Lemma applyEdit_raises doc txt s sc e ec :
  lineCount doc < s → MAX_ARRAY_LENGTH < s →
  applyEdit doc (txt, s, sc, e, ec) = Raised RangeError.
Proof.
  intros H1 H2. unfold applyEdit.
  rewrite padLines_raises; [done| |done].
  by rewrite alen_of_strings.
Qed.

(** The fast path for whole lines, on any document: the document is
    padded to [s] lines first. ([join] sets no bound on the text, so for
    a start line far past the end this is the text an engine would have
    to build.) *)
Lemma applyEdit_deletion doc s e :
  1 ≤ s → s < e → s ≤ MAX_ARRAY_LENGTH →
  applyEdit doc ("", s, 1, e, 1)
  = Returned (join_strings (without_lines (padded (split doc) s) s e)).
Proof.
  intros H1 H2 H3. unfold applyEdit.
  rewrite padLines_returns by done. unfold mbind at 1, outcome_bind at 1.
  rewrite bool_decide_eq_true_2 by done.
  destruct (s <? e) eqn:E; [|zbool; lia]. simpl andb. cbv iota.
  rewrite splice_delete; [|rewrite alen_app, alen_of_strings;
    unfold alen; rewrite length_replicate; lia|done].
  unfold mbind, outcome_bind, join, without_lines. do 2 f_equal.
  by rewrite fmap_app, fmap_take, fmap_drop, or_empty_padLines.
Qed.

Lemma padLines_in_range (a : array) n :
  n ≤ alen a → padLines a n = Returned a.
Proof.
  intros. unfold padLines.
  by destruct (alen a <? Z.max (alen a) n) eqn:E; [zbool; lia|].
Qed.

(** The fast path for a start line of the document, or the line after
    its last one: nothing of the padding remains. *)
Lemma applyEdit_deletion_in_document doc s e :
  1 ≤ s → s < e → s ≤ MAX_ARRAY_LENGTH → s ≤ lineCount doc + 1 →
  applyEdit doc ("", s, 1, e, 1)
  = Returned (join_strings (without_lines (split doc) s e)).
Proof.
  intros H1 H2 H3 H4. rewrite applyEdit_deletion by done. do 2 f_equal.
  unfold lineCount in H4.
  destruct (decide (s ≤ Z.of_nat (length (split doc)))).
  - by rewrite padded_in_range.
  - unfold padded, without_lines.
    replace (Z.to_nat (s - Z.of_nat (length (split doc))))
      with 1%nat by lia.
    replace (Z.to_nat (s - 1)) with (length (split doc)) by lia.
    rewrite take_app_length, firstn_all.
    rewrite !drop_ge; [done|lia|rewrite length_app; simpl; lia].
Qed.

(** *** Edits that write back what is there *)

Lemma slice_inner (b c : string) l : slice (b :: l ++ [c]) 1 (-1) = l.
Proof.
  unfold slice, relative.
  change (-1 <? 0) with true. change (1 <? 0) with false. cbv iota.
  rewrite length_cons, length_app, length_cons. simpl length.
  replace (Z.min 1 _) with 1 by lia.
  replace (Z.max _ 0 - 1) with (Z.of_nat (length l)) by lia.
  change (Z.to_nat 1) with 1%nat. rewrite Nat2Z.id.
  change (drop 1 (b :: l ++ [c])) with (l ++ [c]). apply take_app_length.
Qed.

Lemma editSingleLine_same l1 (a m u : string) l3 :
  let lines := of_strings (l1 ++ (a +:+ m +:+ u) :: l3) in
  editSingleLine lines m (Z.of_nat (length l1) + 1) (strlen a + 1)
    (strlen a + strlen m + 1)
  = lines.
Proof.
  intros lines. unfold editSingleLine.
  replace (Z.of_nat (length l1) + 1 - 1) with (Z.of_nat (length l1)) by lia.
  unfold lines. rewrite get_middle. simpl or_empty.
  pose proof (strlen_nonneg a). pose proof (strlen_nonneg m).
  pose proof (strlen_nonneg u).
  rewrite !strlen_app.
  replace (Z.max 0 (Z.min (strlen a + 1 - 1) _)) with (strlen a) by lia.
  replace (Z.max 0 (Z.min (strlen a + strlen m + 1 - 1) _))
    with (strlen a + strlen m) by lia.
  rewrite spliceString_replaces. apply set_same, get_middle.
Qed.

Lemma editMultiLine_same l1 (a b : string) l2 (c d : string) l3 :
  Forall (λ x, single_line x = true) (b :: l2 ++ [c]) →
  let lines := of_strings (l1 ++ (a +:+ b) :: l2 ++ (c +:+ d) :: l3) in
  editMultiLine lines (join_strings (b :: l2 ++ [c]))
    (Z.of_nat (length l1) + 1) (strlen a + 1)
    (Z.of_nat (length l1) + Z.of_nat (length l2) + 2) (strlen c + 1)
  = Returned lines.
Proof.
  intros Hsl lines. unfold editMultiLine.
  rewrite split_join by done.
  replace (Z.of_nat (length l1) + 1 - 1) with (Z.of_nat (length l1)) by lia.
  assert (Z.of_nat (length l1) + Z.of_nat (length l2) + 2 - 1
          = Z.of_nat (length (l1 ++ (a +:+ b) :: l2))) as ->.
  { rewrite length_app, length_cons. lia. }
  assert (get lines (Z.of_nat (length l1)) = Some (a +:+ b)) as Hs.
  { apply get_middle. }
  assert (get lines (Z.of_nat (length (l1 ++ (a +:+ b) :: l2)))
          = Some (c +:+ d)) as He.
  { unfold lines.
    replace (l1 ++ (a +:+ b) :: l2 ++ (c +:+ d) :: l3)
      with ((l1 ++ (a +:+ b) :: l2) ++ (c +:+ d) :: l3)
      by (by rewrite <-app_assoc).
    apply get_middle. }
  rewrite Hs, He. simpl or_empty.
  pose proof (strlen_nonneg a). pose proof (strlen_nonneg b).
  pose proof (strlen_nonneg c). pose proof (strlen_nonneg d).
  rewrite !strlen_app.
  replace (Z.min (Z.max 0 (strlen a + 1 - 1)) _) with (strlen a) by lia.
  replace (Z.min (Z.max 0 (strlen c + 1 - 1)) _) with (strlen c) by lia.
  change ((b :: l2 ++ [c]) !!! 0%nat) with b.
  assert ((b :: l2 ++ [c]) !!! (length (b :: l2 ++ [c]) - 1)%nat = c) as ->.
  { rewrite app_comm_cons. apply list_lookup_total_middle.
    rewrite length_app, !length_cons. simpl. lia. }
  assert (spliceString (a +:+ b) (strlen a) (strlen a + strlen b) b
          = a +:+ b) as ->.
  { rewrite <-(sapp_nil_r b) at 1.
    by rewrite spliceString_replaces, sapp_nil_r. }
  assert (spliceString (c +:+ d) 0 (strlen c) c = c +:+ d) as ->.
  { apply (spliceString_replaces "" c d c). }
  destruct (Z.of_nat (length (b :: l2 ++ [c])) =? 2) eqn:E; zbool.
  - assert (l2 = []) as ->.
    { rewrite length_cons, length_app in E. destruct l2; [done|].
      simpl in E. lia. }
    rewrite (set_same _ _ _ Hs).
    rewrite set_same.
    + destruct (2 <? _) eqn:E2; [|done]. zbool.
      rewrite length_app in E2. simpl in E2. lia.
    + rewrite <-He. f_equal. rewrite length_app. simpl. lia.
  - rewrite slice_inner.
    unfold splice. subst lines. rewrite alen_of_strings.
    rewrite !length_app, !length_cons, !length_app, !length_cons.
    unfold relative.
    destruct (Z.of_nat (length l1) <? 0) eqn:E0; [zbool; lia|].
    replace (Z.min (Z.of_nat (length l1)) _)
      with (Z.of_nat (length l1)) by lia.
    set (del := Z.max 0 _).
    assert (del = Z.of_nat (length l2) + 2) as -> by (unfold del; lia).
    destruct (_ && _) eqn:E1.
    { zbool. simpl in *. lia. }
    f_equal.
    rewrite !of_strings_app.
    rewrite Nat2Z.id.
    rewrite <-(length_fmap Some l1) at 1.
    rewrite take_app_length.
    replace (Z.to_nat (Z.of_nat (length l1) + (Z.of_nat (length l2) + 2)))
      with (length (of_strings l1)
            + length (of_strings ((a +:+ b) :: l2 ++ [c +:+ d])))%nat.
    2:{ unfold of_strings.
        rewrite !length_fmap, length_cons, length_app. simpl. lia. }
    rewrite <-drop_drop, drop_app_length.
    replace (of_strings ((a +:+ b) :: l2 ++ (c +:+ d) :: l3))
      with (of_strings ((a +:+ b) :: l2 ++ [c +:+ d]) ++ of_strings l3).
    2:{ rewrite <-of_strings_app. f_equal. simpl.
        by rewrite <-app_assoc. }
    rewrite drop_app_length. f_equal.
    by rewrite <-!of_strings_app.
Qed.

Lemma single_line_str_take n (s : string) :
  single_line s = true → single_line (str_take n s) = true.
Proof.
  intros H. rewrite <-(str_take_drop n s), single_line_app in H.
  by apply andb_true_iff in H as [? ?].
Qed.

Lemma single_line_str_drop n (s : string) :
  single_line s = true → single_line (str_drop n s) = true.
Proof.
  intros H. rewrite <-(str_take_drop n s), single_line_app in H.
  by apply andb_true_iff in H as [? ?].
Qed.

Lemma join_strings_two_nonempty (x y : string) l :
  join_strings (x :: y :: l) ≠ "".
Proof. rewrite join_strings_cons_cons. by destruct x. Qed.

(** A list around two of its entries. *)
Lemma list_around_two {A} (l : list A) (i j : nat) (x y : A) :
  (i < j)%nat → l !! i = Some x → l !! j = Some y →
  l = take i l ++ x :: take (j - i - 1) (drop (S i) l) ++ y :: drop (S j) l.
Proof.
  intros Hij Hi Hj.
  rewrite <-(take_drop_middle l i x Hi) at 1. do 2 f_equal.
  assert (drop (S i) l !! (j - i - 1)%nat = Some y) as Hd.
  { rewrite lookup_drop, <-Hj. f_equal. lia. }
  rewrite <-(take_drop_middle _ _ _ Hd) at 1. do 2 f_equal.
  rewrite drop_drop. f_equal. lia.
Qed.

(** Replacing a stretch of one line by itself. *)
Lemma applyEdit_same_single doc l1 (a m u : string) l3 :
  split doc = l1 ++ (a +:+ m +:+ u) :: l3 →
  applyEdit doc (m, Z.of_nat (length l1) + 1, strlen a + 1,
                 Z.of_nat (length l1) + 1, strlen a + strlen m + 1)
  = Returned doc.
Proof.
  intros Hdoc. unfold applyEdit.
  rewrite padLines_in_range.
  2:{ rewrite alen_of_strings, Hdoc, length_app, length_cons. lia. }
  unfold mbind at 1, outcome_bind at 1.
  rewrite Z.ltb_irrefl, andb_false_r, Z.eqb_refl. simpl andb. cbv iota.
  unfold mbind, outcome_bind. rewrite Hdoc, editSingleLine_same.
  by rewrite join_of_strings, <-Hdoc, join_split.
Qed.

(** Replacing a stretch over several lines by itself. *)
Lemma applyEdit_same_multi doc l1 (a b : string) l2 (c d : string) l3 :
  split doc = l1 ++ (a +:+ b) :: l2 ++ (c +:+ d) :: l3 →
  applyEdit doc (join_strings (b :: l2 ++ [c]),
                 Z.of_nat (length l1) + 1, strlen a + 1,
                 Z.of_nat (length l1) + Z.of_nat (length l2) + 2,
                 strlen c + 1)
  = Returned doc.
Proof.
  intros Hdoc. unfold applyEdit.
  rewrite padLines_in_range.
  2:{ rewrite alen_of_strings, Hdoc, length_app, length_cons. lia. }
  unfold mbind at 1, outcome_bind at 1.
  rewrite bool_decide_eq_false_2.
  2:{ destruct l2; apply join_strings_two_nonempty. }
  simpl andb. cbv iota.
  destruct (_ =? _) eqn:E; [zbool; lia|].
  assert (Forall (λ x, single_line x = true) (b :: l2 ++ [c])) as Hsl.
  { pose proof (split_single_line doc) as H. rewrite Hdoc in H.
    apply Forall_app in H as [_ H].
    apply Forall_cons in H as [Hab H].
    apply Forall_app in H as [H2 H]. apply Forall_cons in H as [Hcd _].
    rewrite single_line_app in Hab, Hcd.
    apply andb_true_iff in Hab as [_ ?], Hcd as [? _].
    apply Forall_cons; split; [done|].
    apply Forall_app; split; [done|]. by apply Forall_cons. }
  rewrite Hdoc, editMultiLine_same by done.
  unfold mbind, outcome_bind.
  by rewrite join_of_strings, <-Hdoc, join_split.
Qed.

(** *** A one-line text over several lines *)

(** A replacement text without newline over a range that spans several
    lines: the text is put at the end of the first line of the range and
    again at the start of the last one, and the two stay separate lines. *)
Lemma applyEdit_one_line_text doc l1 (a b : string) l2 (c d txt : string) l3 :
  split doc = l1 ++ (a +:+ b) :: l2 ++ (c +:+ d) :: l3 →
  single_line txt = true → ¬ (txt = "" ∧ a = "" ∧ c = "") →
  applyEdit doc (txt, Z.of_nat (length l1) + 1, strlen a + 1,
                 Z.of_nat (length l1) + Z.of_nat (length l2) + 2,
                 strlen c + 1)
  = Returned (join_strings (l1 ++ (a +:+ txt) :: (txt +:+ d) :: l3)).
Proof.
  intros Hdoc Htxt Hne. unfold applyEdit.
  rewrite padLines_in_range.
  2:{ rewrite alen_of_strings, Hdoc, length_app, length_cons. lia. }
  unfold mbind at 1, outcome_bind at 1.
  pose proof (strlen_nonneg a). pose proof (strlen_nonneg b).
  pose proof (strlen_nonneg c). pose proof (strlen_nonneg d).
  destruct (_ && _ && _ && _) eqn:E.
  { zbool. case_bool_decide; [|done]. destruct Hne.
    split; [done|]. split; apply strlen_0; lia. }
  clear E. destruct (_ =? _) eqn:E; [zbool; lia|]. clear E.
  unfold editMultiLine. rewrite (split_of_single_line txt Htxt), Hdoc.
  replace (Z.of_nat (length l1) + 1 - 1) with (Z.of_nat (length l1)) by lia.
  assert (Z.of_nat (length l1) + Z.of_nat (length l2) + 2 - 1
          = Z.of_nat (length (l1 ++ (a +:+ b) :: l2))) as ->.
  { rewrite length_app, length_cons. lia. }
  rewrite get_middle.
  replace (l1 ++ (a +:+ b) :: l2 ++ (c +:+ d) :: l3)
    with ((l1 ++ (a +:+ b) :: l2) ++ (c +:+ d) :: l3)
    by (by rewrite <-app_assoc).
  rewrite get_middle. simpl or_empty. rewrite !strlen_app.
  replace (Z.min (Z.max 0 (strlen a + 1 - 1)) _) with (strlen a) by lia.
  replace (Z.min (Z.max 0 (strlen c + 1 - 1)) _) with (strlen c) by lia.
  change ([txt] !!! 0%nat) with txt.
  change ([txt] !!! (length [txt] - 1)%nat) with txt.
  assert (spliceString (a +:+ b) (strlen a) (strlen a + strlen b) txt
          = a +:+ txt) as ->.
  { rewrite <-(sapp_nil_r b) at 1.
    by rewrite spliceString_replaces, sapp_nil_r. }
  assert (spliceString (c +:+ d) 0 (strlen c) txt = txt +:+ d) as ->.
  { apply (spliceString_replaces "" c d txt). }
  change (Z.of_nat (length [txt]) =? 2) with false. cbv iota.
  change (slice [txt] 1 (-1)) with (@nil string).
  assert (Z.of_nat (length (l1 ++ (a +:+ b) :: l2)) - Z.of_nat (length l1) + 1
          = Z.of_nat (length l2) + 2) as ->
    by (rewrite length_app, length_cons; lia).
  rewrite splice_in_range.
  2,3: lia.
  2:{ rewrite alen_of_strings, !length_app, !length_cons. lia. }
  2:{ left. simpl. lia. }
  unfold mbind, outcome_bind. f_equal.
  rewrite Nat2Z.id.
  replace (Z.to_nat (Z.of_nat (length l1) + (Z.of_nat (length l2) + 2)))
    with (length (of_strings (l1 ++ (a +:+ b) :: l2 ++ [c +:+ d]))).
  2:{ unfold of_strings.
      rewrite length_fmap, !length_app, !length_cons, length_app. simpl. lia. }
  replace ((l1 ++ (a +:+ b) :: l2) ++ (c +:+ d) :: l3)
    with ((l1 ++ (a +:+ b) :: l2 ++ [c +:+ d]) ++ l3).
  2:{ rewrite <-!app_assoc. simpl. by rewrite <-app_assoc. }
  rewrite (of_strings_app (l1 ++ _) l3), drop_app_length.
  rewrite (of_strings_app l1).
  rewrite <-(length_fmap Some l1) at 1.
  rewrite <-app_assoc, take_app_length.
  rewrite <-!of_strings_app. apply join_of_strings.
Qed.

(** *** Line count of a multi-line replace *)

Lemma oneLiners_of_strings l :
  Forall (λ x, single_line x = true) l → oneLiners (of_strings l).
Proof. intros H. unfold oneLiners, of_strings. by apply Forall_fmap. Qed.

Lemma oneLiners_set (a : array) i (v : string) :
  oneLiners a → single_line v = true → oneLiners (set a i v).
Proof.
  intros Ha Hv. unfold set. destruct (_ || _); [done|].
  destruct (i <? alen a); [by apply Forall_insert|].
  apply Forall_app_2; [done|].
  apply Forall_app_2; [by apply Forall_replicate|]. by apply Forall_singleton.
Qed.

Lemma lineCount_join (a : array) :
  a ≠ [] → oneLiners a → lineCount (join a) = alen a.
Proof.
  intros Hne Ha. unfold lineCount, join, alen.
  rewrite length_split_join, length_fmap; [done| |].
  - by destruct a.
  - by apply Forall_fmap.
Qed.

Lemma single_line_substring (s : string) i j :
  single_line s = true → single_line (substring s i j) = true.
Proof.
  intros. unfold substring.
  by apply single_line_str_take, single_line_str_drop.
Qed.

Lemma single_line_spliceString (s : string) i j (insert : string) :
  single_line s = true → single_line insert = true →
  single_line (spliceString s i j insert) = true.
Proof.
  intros Hs Hi. unfold spliceString.
  destruct (_ && _); [done|]. destruct (_ && _); [done|].
  rewrite !single_line_app, Hi. unfold substring_from.
  by rewrite !single_line_substring.
Qed.

Lemma single_line_get (a : array) i :
  oneLiners a → single_line (or_empty (get a i)) = true.
Proof.
  intros Ha. unfold get. destruct (i <? 0); [done|].
  destruct (a !! Z.to_nat i) as [x|] eqn:E; [|done].
  by apply (Forall_lookup_1 _ _ _ _ Ha E).
Qed.

Lemma single_line_lookup_total l i :
  Forall (λ x, single_line x = true) l → single_line (l !!! i) = true.
Proof.
  intros H. destruct (l !! i) as [x|] eqn:E.
  - rewrite (list_lookup_total_correct _ _ _ E).
    by apply (Forall_lookup_1 _ _ _ _ H E).
  - rewrite list_lookup_total_alt, E. done.
Qed.

(** Line-count accounting for a replacement text of [k + 1 ≥ 2] lines
    over the lines [s] to [e] of the document: the result has
    [lineCount doc - (e - s + 1) + (k + 1)] lines. *)
Lemma line_count_multi_line doc txt s sc e ec :
  1 ≤ s → s < e → e ≤ lineCount doc → 2 ≤ lineCount txt →
  lineCount doc - (e - s + 1) + lineCount txt ≤ MAX_ARRAY_LENGTH →
  ∃ updatedCode,
    applyEdit doc (txt, s, sc, e, ec) = Returned updatedCode
    ∧ lineCount updatedCode = lineCount doc - (e - s + 1) + lineCount txt.
Proof.
  intros H1 H2 H3 H4 H5. unfold lineCount in H3, H4, H5 |- * at 2 3.
  unfold applyEdit.
  rewrite padLines_in_range by (rewrite alen_of_strings; lia).
  unfold mbind at 1, outcome_bind at 1.
  rewrite bool_decide_eq_false_2 by (intros ->; simpl in H4; lia).
  simpl andb. cbv iota.
  destruct (s =? e) eqn:E; zbool; [lia|].
  set (a := of_strings (split doc)).
  assert (alen a = Z.of_nat (length (split doc))) as Ha
    by apply alen_of_strings.
  assert (oneLiners a) as Hwf
    by apply oneLiners_of_strings, split_single_line.
  unfold editMultiLine.
  set (nS := spliceString _ _ _ (split txt !!! 0%nat)).
  set (nE := spliceString _ _ _ (split txt !!! _)).
  assert (single_line nS = true) as HnS.
  { apply single_line_spliceString; [by apply single_line_get|].
    apply single_line_lookup_total, split_single_line. }
  assert (single_line nE = true) as HnE.
  { apply single_line_spliceString; [by apply single_line_get|].
    apply single_line_lookup_total, split_single_line. }
  destruct (Z.of_nat (length (split txt)) =? 2) eqn:E2; zbool.
  - set (a2 := set (set a (s - 1) nS) (s - 1 + 1) nE).
    assert (alen a2 = alen a) as Ha2.
    { unfold a2. rewrite !alen_set_in_range; [done|lia|].
      rewrite alen_set_in_range; lia. }
    assert (oneLiners a2) as Hwf2 by by apply oneLiners_set, HnE; apply oneLiners_set.
    destruct (2 <? e - 1 - (s - 1) + 1) eqn:E3; zbool.
    + rewrite splice_in_range by (simpl length; lia).
      unfold mbind, outcome_bind. eexists. split; [done|].
      rewrite lineCount_join.
      * rewrite !alen_app. unfold alen in *.
        rewrite length_take, length_drop. simpl length. lia.
      * intros Hnil. apply (f_equal length) in Hnil.
        rewrite !length_app, length_take in Hnil. unfold alen in *.
        simpl in Hnil. lia.
      * apply Forall_app_2; [by apply Forall_take|].
        apply Forall_app_2; [by constructor|]. by apply Forall_drop.
    + unfold mbind, outcome_bind. eexists. split; [done|].
      rewrite lineCount_join; [lia| |done].
      intros Hnil. rewrite Hnil in Ha2. unfold alen in *. simpl in *. lia.
  - pose proof (length_slice_inner (split txt) ltac:(lia)) as Hsl.
    rewrite splice_in_range.
    2,3,4: lia.
    2:{ rewrite !length_app, Hsl. simpl length. lia. }
    unfold mbind, outcome_bind. eexists. split; [done|].
    rewrite lineCount_join.
    + rewrite !alen_app, alen_of_strings. unfold alen in *.
      rewrite length_take, length_drop, !length_app, Hsl. simpl length. lia.
    + intros Hnil. apply (f_equal length) in Hnil.
      unfold of_strings in Hnil.
      rewrite !length_app, length_fmap, !length_app in Hnil.
      simpl in Hnil. lia.
    + apply Forall_app_2; [by apply Forall_take|].
      apply Forall_app_2; [|by apply Forall_drop].
      apply oneLiners_of_strings.
      apply Forall_app_2; [by apply Forall_singleton|].
      apply Forall_app_2; [|by apply Forall_singleton].
      unfold slice. apply Forall_take, Forall_drop, split_single_line.
Qed.

End Applier.

(** ** Sample edits

    The single-line insertion and the expanding replace of the
    specification's examples. *)

Example single_line_insertion :
  applyEdit "ab" ("X", 1, 2, 1, 2) = Returned "aXb".
Proof. reflexivity. Qed.

Example multi_line_replace_expanding :
  applyEdit "" ("X" +:+ NL +:+ "Y" +:+ NL +:+ "Z", 1, 1, 1, 1)
  = Returned ("X" +:+ NL +:+ "Y" +:+ NL +:+ "Z").
Proof. reflexivity. Qed.

(** ** Properties of the edit applier *)

(** C5 (no-op idempotence), amended. For every document and every
    operation whose two positions lie in the document, whose start
    position is not after its end position ([startLine < endLine], or on
    one line [startColumn ≤ endColumn]), and whose text is exactly what
    the document holds from the start position up to the end position,
    applying the operation returns the document unchanged. *)
Theorem noop_edit_leaves_document_unchanged
    (doc txt : string) (startLine startColumn endLine endColumn : Z) :
  startLine < endLine ∨ startColumn ≤ endColumn →
  rangeText doc startLine startColumn endLine endColumn = Some txt →
  applyEdit doc (txt, startLine, startColumn, endLine, endColumn)
  = Returned doc.
Proof.
  unfold rangeText. intros Hord H.
  case_bool_decide as Hl; [|done].
  destruct (split doc !! Z.to_nat (startLine - 1)) as [first|] eqn:Hf;
    [|done].
  destruct (split doc !! Z.to_nat (endLine - 1)) as [last|] eqn:Hla;
    [|done].
  cbn -[join_strings str_take str_drop] in H.
  case_bool_decide as Hc; [|done].
  pose proof (lookup_lt_Some _ _ _ Hf) as Hflt.
  pose proof (lookup_lt_Some _ _ _ Hla) as Hllt.
  set (a := str_take (Z.to_nat (startColumn - 1)) first).
  set (b := str_drop (Z.to_nat (startColumn - 1)) first) in *.
  assert (first = a +:+ b) as Hab by (symmetry; apply str_take_drop).
  assert (strlen a + 1 = startColumn) as Ha.
  { unfold a, strlen in *. rewrite length_str_take; lia. }
  case_bool_decide as Hse.
  - (* one line *)
    subst endLine. assert (startColumn ≤ endColumn) as Hcol by lia.
    injection H as <-. rewrite Hf in Hla. injection Hla as <-.
    set (m := str_take (Z.to_nat (endColumn - startColumn)) b).
    set (u := str_drop (Z.to_nat (endColumn - startColumn)) b).
    assert (b = m +:+ u) as Hmu by (symmetry; apply str_take_drop).
    assert (strlen a + strlen m + 1 = endColumn) as Hm.
    { unfold m, b, strlen in *.
      rewrite length_str_take; [lia|]. rewrite length_str_drop. lia. }
    pose proof (take_drop_middle _ _ _ Hf) as Hdoc.
    rewrite Hab, Hmu in Hdoc.
    pose proof (applyEdit_same_single doc _ a m u _ (eq_sym Hdoc)) as Hx.
    rewrite length_take_le, Ha, Hm in Hx by lia.
    by replace (Z.of_nat (Z.to_nat (startLine - 1)) + 1)
      with startLine in Hx by lia.
  - (* several lines *)
    injection H as <-.
    set (c := str_take (Z.to_nat (endColumn - 1)) last).
    set (d := str_drop (Z.to_nat (endColumn - 1)) last).
    assert (last = c +:+ d) as Hcd by (symmetry; apply str_take_drop).
    assert (strlen c + 1 = endColumn) as Hclen.
    { unfold c, strlen in *. rewrite length_str_take; lia. }
    assert (Z.to_nat (startLine - 1) < Z.to_nat (endLine - 1))%nat
      as Hlt by lia.
    pose proof (list_around_two (split doc) _ _ _ _ Hlt Hf Hla) as Hdoc.
    rewrite Hab, Hcd in Hdoc.
    pose proof (applyEdit_same_multi doc _ a b _ c d _ Hdoc) as Hx.
    rewrite length_take_le, Ha, Hclen in Hx by lia.
    rewrite length_take_le in Hx by (rewrite length_drop; lia).
    replace (Z.of_nat (Z.to_nat (startLine - 1)) + 1)
      with startLine in Hx by lia.
    replace (Z.of_nat (Z.to_nat (startLine - 1))
             + Z.of_nat (Z.to_nat (endLine - 1) - Z.to_nat (startLine - 1) - 1)
             + 2) with endLine in Hx by lia.
    replace (S (Z.to_nat (startLine - 1))) with (Z.to_nat startLine)
      in Hx by lia.
    replace (Z.to_nat (endLine - 1) - Z.to_nat (startLine - 1) - 1)%nat
      with (Z.to_nat (endLine - startLine - 1)) in Hx by lia.
    done.
Qed.

Lemma noop_edit_witness :
  rangeText ("ab" +:+ NL +:+ "cd") 1 2 2 2 = Some ("b" +:+ NL +:+ "c")
  ∧ applyEdit ("ab" +:+ NL +:+ "cd") ("b" +:+ NL +:+ "c", 1, 2, 2, 2)
    = Returned ("ab" +:+ NL +:+ "cd").
Proof.
  split; [reflexivity|].
  apply noop_edit_leaves_document_unchanged; [left; lia|reflexivity].
Defined.

(** C5 as stated fails on one line with the end column before the start
    column: from column 4 up to column 2 of ["abcd"] there is nothing,
    and the operation with the empty text does not leave the document as
    it is: the applier keeps the line up to column 4 and again from
    column 2 on, giving ["abcbcd"]. *)
Lemma noop_edit_inverted_columns :
  rangeText "abcd" 1 4 1 2 = Some ""
  ∧ applyEdit "abcd" ("", 1, 4, 1, 2) = Returned "abcbcd"
  ∧ applyEdit "abcd" ("", 1, 4, 1, 2) ≠ Returned "abcd".
Proof. split; [reflexivity|]. split; [reflexivity|discriminate]. Qed.

(** C1 (multi-line replace with a one-line text). On ["ab\ncd"] the
    operation [("Z", 1, 2, 2, 2)] does not produce ["aZd"]: the
    replacement is written at the end of the first line and again at the
    start of the last one, and the two lines stay apart, giving
    ["aZ\nZd"]. *)
Theorem replace_two_lines_by_one_line_text :
  applyEdit ("ab" +:+ NL +:+ "cd") ("Z", 1, 2, 2, 2)
  = Returned ("aZ" +:+ NL +:+ "Zd")
  ∧ applyEdit ("ab" +:+ NL +:+ "cd") ("Z", 1, 2, 2, 2) ≠ Returned "aZd".
Proof.
  assert (applyEdit ("ab" +:+ NL +:+ "cd") ("Z", 1, 2, 2, 2)
          = Returned ("aZ" +:+ NL +:+ "Zd")) as H.
  { apply (applyEdit_one_line_text ("ab" +:+ NL +:+ "cd")
             [] "a" "b" [] "c" "d" "Z" []); [done..|].
    by intros [? _]. }
  split; [done|]. by rewrite H.
Qed.

(** C2 (line-count accounting). For the two-line document ["ab\ncd"] and
    the operation [("Z", 1, 2, 2, 2)], which spans both lines with a text
    of one line (no newline), the count
    [originalLineCount - removedLineCount + (k + 1)] is 1, and the
    document the applier returns has 2 lines. *)
Theorem line_count_of_one_line_text :
  ∃ updatedCode,
    applyEdit ("ab" +:+ NL +:+ "cd") ("Z", 1, 2, 2, 2) = Returned updatedCode
    ∧ lineCount updatedCode = 2
    ∧ lineCount ("ab" +:+ NL +:+ "cd") - (2 - 1 + 1) + lineCount "Z" = 1.
Proof. eexists. split; [reflexivity|]. split; reflexivity. Qed.

(** C3 (totality). On the empty document, the operation
    [("", 4294967296, 1, 4294967296, 1)] makes the applier throw: the
    start line exceeds the line count, so [lines.length] is assigned
    2^32, which is no array length. *)
Theorem applier_raises_on_huge_start_line :
  applyEdit "" ("", 4294967296, 1, 4294967296, 1) = Raised RangeError.
Proof.
  apply applyEdit_raises.
  - unfold lineCount. simpl. lia.
  - unfold MAX_ARRAY_LENGTH. lia.
Qed.

(** C4 (whole-line deletion), amended. For every document and every
    operation with empty text, both columns 1 and
    [1 ≤ startLine < endLine], whose start line is a line of the document
    or the line after its last one (and an array length): the result is
    the document without its lines [startLine] up to, not including,
    [endLine], every other line as it was; so [("", 2, 1, 4, 1)] on
    ["a\nb\nc\nd\ne"] gives ["a\nd\ne"]. *)
Theorem whole_line_deletion (doc : string) (startLine endLine : Z) :
  1 ≤ startLine → startLine < endLine →
  startLine ≤ lineCount doc + 1 → startLine ≤ MAX_ARRAY_LENGTH →
  applyEdit doc ("", startLine, 1, endLine, 1)
  = Returned (join_strings (without_lines (split doc) startLine endLine))
  ∧ applyEdit ("a" +:+ NL +:+ "b" +:+ NL +:+ "c" +:+ NL +:+ "d" +:+ NL +:+ "e")
      ("", 2, 1, 4, 1)
    = Returned ("a" +:+ NL +:+ "d" +:+ NL +:+ "e").
Proof.
  intros H1 H2 H3 H4.
  split; [by apply applyEdit_deletion_in_document|reflexivity].
Qed.

Lemma whole_line_deletion_witness :
  applyEdit ("a" +:+ NL +:+ "b" +:+ NL +:+ "c") ("", 2, 1, 3, 1)
  = Returned ("a" +:+ NL +:+ "c").
Proof.
  pose proof (whole_line_deletion ("a" +:+ NL +:+ "b" +:+ NL +:+ "c") 2 3
                ltac:(lia) ltac:(lia)
                ltac:(unfold lineCount; simpl; lia)
                ltac:(unfold MAX_ARRAY_LENGTH; lia))
    as [H _].
  exact H.
Defined.

(** C4 as stated fails where the start line lies more than one line
    past the end of the document: the document is first lengthened to
    the start line, and of the empty lines added only the one at the
    start line is removed. Deleting the lines 3 and 4 of ["a"] should
    leave ["a"], and the applier returns ["a\n"]. *)
Lemma whole_line_deletion_pads :
  applyEdit "a" ("", 3, 1, 5, 1) = Returned ("a" +:+ NL)
  ∧ applyEdit "a" ("", 3, 1, 5, 1)
    ≠ Returned (join_strings (without_lines (split "a") 3 5)).
Proof. split; [reflexivity|discriminate]. Qed.

(** ** The room store *)

Section Store.

Implicit Types (w : World) (roomID : string).

Lemma or_else_empty (v : option string) :
  or_else v "" = default "" v.
Proof. destruct v as [s|]; simpl; [|done]. by case_bool_decide. Qed.

Lemma getCode_run roomID w :
  getCode roomID w
  = (record (MapGet roomID) w, Returned (textOf (roomData w) roomID)).
Proof.
  unfold getCode, textOf, mbind, handler_bind, map_get, mret, handler_ret.
  rewrite or_else_empty. by destruct (roomData w !! roomID).
Qed.

Lemma getLang_run roomID w :
  getLang roomID w
  = (record (MapGet roomID) w,
     Returned (or_else (langId <$> roomData w !! roomID) DEFAULT_LANG_ID)).
Proof. reflexivity. Qed.

(** What [initializeRoom] leaves in the map, and what it does. *)
Lemma initializeRoom_run roomID w :
  ∃ w' data,
    initializeRoom roomID w = (w', Returned data)
    ∧ roomData w' !! roomID = Some data
    ∧ data = {| code := textOf (roomData w) roomID;
                langId := langOf (roomData w) roomID |}
    ∧ roomData w' = <[roomID := data]> (roomData w)
    ∧ trace w'
      = trace w ++ MapGet roomID
          :: (if roomData w !! roomID is None
              then [MapSet roomID data] else []).
Proof.
  unfold initializeRoom, mbind, handler_bind, map_get, textOf, langOf.
  destruct (roomData w !! roomID) as [[c g]|] eqn:E; simpl.
  - eexists _, _. split; [done|]. simpl.
    by rewrite insert_id, E.
  - eexists _, _. split; [done|]. simpl.
    by rewrite lookup_insert_eq, <-app_assoc.
Qed.

Lemma storeCode_run roomID (v : string) w :
  ∃ w',
    storeCode roomID v w = (w', Returned ())
    ∧ roomData w'
      = <[roomID := {| code := v; langId := langOf (roomData w) roomID |}]>
          (roomData w)
    ∧ trace w'
      = trace w ++ MapGet roomID
          :: (if roomData w !! roomID is None
              then [MapSet roomID {| code := ""; langId := DEFAULT_LANG_ID |}]
              else [])
          ++ [AssignCode roomID v].
Proof.
  destruct (initializeRoom_run roomID w) as (w1 & data & H & H1 & -> & H3 & H4).
  unfold storeCode, mbind, handler_bind, assign_code. rewrite H.
  eexists. split; [done|]. simpl. split.
  - by rewrite H3, alter_insert_eq.
  - rewrite H4, <-app_assoc. simpl. f_equal. f_equal.
    unfold textOf, langOf. by destruct (roomData w !! roomID).
Qed.

Lemma setLang_run roomID (v : string) w :
  ∃ w',
    setLang roomID v w = (w', Returned ())
    ∧ roomData w'
      = <[roomID := {| code := textOf (roomData w) roomID; langId := v |}]>
          (roomData w).
Proof.
  destruct (initializeRoom_run roomID w) as (w1 & data & H & H1 & -> & H3 & H4).
  unfold setLang, mbind, handler_bind, assign_langId. rewrite H.
  eexists. split; [done|]. simpl.
  by rewrite H3, alter_insert_eq.
Qed.

End Store.

(** C8 (store round-trip). For every world, room and text [T]: the store
    write of [updateCode] followed by [getCode] returns [T]; [getCode] for
    a room without an entry returns [""]; [getCode] after [deleteRoom]
    returns [""]; [deleteRoom] returns normally whether or not the room
    has an entry, leaves a store without entry alone, and a second
    [deleteRoom] changes nothing. *)
Theorem store_round_trip (w : World) (roomID T : string) :
  (storeCode roomID T w).2 = Returned ()
  ∧ (getCode roomID (storeCode roomID T w).1).2 = Returned T
  ∧ (roomData w !! roomID = None → (getCode roomID w).2 = Returned "")
  ∧ (deleteRoom roomID w).2 = Returned ()
  ∧ (getCode roomID (deleteRoom roomID w).1).2 = Returned ""
  ∧ roomData (deleteRoom roomID (deleteRoom roomID w).1).1
    = roomData (deleteRoom roomID w).1
  ∧ (roomData w !! roomID = None →
     roomData (deleteRoom roomID w).1 = roomData w).
Proof.
  destruct (storeCode_run roomID T w) as (w1 & -> & Hm & _).
  repeat split.
  - rewrite getCode_run. simpl. unfold textOf.
    by rewrite Hm, lookup_insert_eq.
  - intros H. rewrite getCode_run. simpl. unfold textOf. by rewrite H.
  - rewrite getCode_run. simpl. unfold textOf.
    by rewrite lookup_delete_eq.
  - simpl. apply delete_delete_eq.
  - intros H. simpl. by apply delete_id.
Qed.

Lemma store_round_trip_witness :
  (getCode "r" {| roomData := ∅; trace := [] |}).2 = Returned "".
Proof.
  pose proof (store_round_trip {| roomData := ∅; trace := [] |} "r" "T")
    as (_ & _ & H & _).
  apply H. reflexivity.
Defined.

(** C10 (falsy language tags). For every world and room: after
    [setLang(roomID, "")] the store holds the empty tag for the room and
    [getLang] returns the default ['html']; after [setLang] with a
    non-empty tag, [getLang] returns that tag. *)
Theorem getLang_masks_empty_tag (w : World) (roomID : string) :
  (langId <$> roomData (setLang roomID "" w).1 !! roomID = Some ""
   ∧ (getLang roomID (setLang roomID "" w).1).2 = Returned "html")
  ∧ ∀ tag : string, tag ≠ "" →
      (getLang roomID (setLang roomID tag w).1).2 = Returned tag.
Proof.
  split.
  - destruct (setLang_run roomID "" w) as (w1 & -> & Hm).
    rewrite getLang_run. simpl. by rewrite Hm, lookup_insert_eq.
  - intros tag Htag.
    destruct (setLang_run roomID tag w) as (w1 & -> & Hm).
    rewrite getLang_run. simpl. rewrite Hm, lookup_insert_eq. simpl.
    by rewrite bool_decide_eq_false_2.
Qed.

Lemma getLang_masks_empty_tag_witness :
  (getLang "r" (setLang "r" "python" {| roomData := ∅; trace := [] |}).1).2
  = Returned "python".
Proof.
  pose proof (getLang_masks_empty_tag {| roomData := ∅; trace := [] |} "r")
    as [_ H].
  apply H. discriminate.
Defined.

(** ** The socket handlers *)

Section HandlerFacts.

Variable getUserRoom : Socket → option string.
Variable getCustomId : string → option string.

Implicit Types (w : World) (socket : Socket) (op : EditOp).

(** The gate of [updateCode]: without a room or without an identity the
    handler returns at once. *)
Lemma updateCode_dropped socket op w :
  truthy (getCustomId (id socket)) = None
  ∨ truthy (getUserRoom socket) = None →
  updateCode getUserRoom getCustomId socket op w = (w, Returned ()).
Proof.
  unfold updateCode. intros [-> | ->]; [done|].
  by destruct (truthy (getCustomId (id socket))).
Qed.

(** Past the gate: the relay, the read, the applier, and the store
    write if the applier returned. *)
Lemma updateCode_accepted socket op w roomID customId :
  truthy (getCustomId (id socket)) = Some customId →
  truthy (getUserRoom socket) = Some roomID →
  updateCode getUserRoom getCustomId socket op w
  = let w1 := record (EmitToOthers socket roomID UPDATE_CODE (Operation op)) w in
    let w2 := record (MapGet roomID) w1 in
    match applyEdit (textOf (roomData w) roomID) op with
    | Returned updatedCode => storeCode roomID updatedCode w2
    | Raised e => (w2, Raised e)
    end.
Proof.
  intros Hc Hr. unfold updateCode. rewrite Hc, Hr.
  unfold mbind at 1, handler_bind at 1, emit_to_others.
  unfold mbind at 1, handler_bind at 1. rewrite getCode_run.
  unfold mbind at 1, handler_bind at 1, eval. simpl roomData.
  by destruct (applyEdit _ _).
Qed.

(** An accepted edit whose application returns is applied in full:
    the handler returns and the room holds the new text. *)
Lemma updateCode_applied socket op w roomID customId updatedCode :
  truthy (getCustomId (id socket)) = Some customId →
  truthy (getUserRoom socket) = Some roomID →
  applyEdit (textOf (roomData w) roomID) op = Returned updatedCode →
  (updateCode getUserRoom getCustomId socket op w).2 = Returned ()
  ∧ roomData (updateCode getUserRoom getCustomId socket op w).1
    = <[roomID := {| code := updatedCode;
                     langId := langOf (roomData w) roomID |}]> (roomData w).
Proof.
  intros Hc Hr Ha. rewrite (updateCode_accepted _ _ _ _ _ Hc Hr), Ha.
  cbv zeta.
  destruct (storeCode_run roomID updatedCode
              (record (MapGet roomID)
                 (record (EmitToOthers socket roomID UPDATE_CODE
                            (Operation op)) w)))
    as (w' & -> & Hm & _).
  done.
Qed.

(** An accepted edit whose application throws has been relayed and is
    not stored. *)
Lemma updateCode_interrupted socket op w roomID customId e :
  truthy (getCustomId (id socket)) = Some customId →
  truthy (getUserRoom socket) = Some roomID →
  applyEdit (textOf (roomData w) roomID) op = Raised e →
  updateCode getUserRoom getCustomId socket op w
  = ({| roomData := roomData w;
        trace := trace w
                 ++ [EmitToOthers socket roomID UPDATE_CODE (Operation op);
                     MapGet roomID] |},
     Raised e).
Proof.
  intros Hc Hr Ha. rewrite (updateCode_accepted _ _ _ _ _ Hc Hr), Ha.
  unfold record. simpl. by rewrite <-app_assoc.
Qed.

Lemma syncCode_run socket w roomID customId :
  truthy (getUserRoom socket) = Some roomID →
  truthy (getCustomId (id socket)) = Some customId →
  syncCode getUserRoom getCustomId socket w
  = ({| roomData := roomData w;
        trace := trace w
                 ++ [MapGet roomID;
                     EmitTo (id socket) SYNC_CODE
                       (Text (textOf (roomData w) roomID))] |},
     Returned ()).
Proof.
  intros Hr Hc. unfold syncCode. rewrite Hr, Hc.
  unfold mbind, handler_bind. rewrite getCode_run.
  unfold emit_to, record. simpl. by rewrite <-app_assoc.
Qed.

End HandlerFacts.

(** C6 (all or nothing). A connection with room ["room"] and identity
    ["user"] sends [("", 4294967296, 1, 4294967296, 1)] for a room with
    no entry: the operation is relayed to the room, the stored text is
    read, the applier throws, and the handler ends without having written
    the store: the edit is applied in part. *)
Theorem updateCode_relays_then_raises :
  let socket := {| id := "s1" |} in
  let op : EditOp := ("", 4294967296, 1, 4294967296, 1) in
  updateCode (λ _, Some "room") (λ _, Some "user") socket op
    {| roomData := ∅; trace := [] |}
  = ({| roomData := ∅;
        trace := [EmitToOthers socket "room" UPDATE_CODE (Operation op);
                  MapGet "room"] |},
     Raised RangeError).
Proof.
  intros socket op.
  apply (updateCode_interrupted _ _ socket op
           {| roomData := ∅; trace := [] |} "room" "user"); [done..|].
  change (textOf _ "room") with "".
  apply applyEdit_raises.
  - unfold lineCount. simpl. lia.
  - unfold MAX_ARRAY_LENGTH. lia.
Qed.

(** C7 (relay before apply). For every accepted edit (identity and room
    both resolved, that is, non-empty strings) the first action of the
    handler is the emission of the operation as received to the
    connections of the sender's room other than the sender; the read of
    the stored text comes next, and everything after it is an action on
    the store; when the applier returns, the last action is the
    assignment of the new text, which the room then holds. *)
Theorem relay_before_apply
    (getUserRoom : Socket → option string)
    (getCustomId : string → option string)
    (socket : Socket) (op : EditOp) (w : World) (roomID customId : string) :
  truthy (getCustomId (id socket)) = Some customId →
  truthy (getUserRoom socket) = Some roomID →
  let w' := (updateCode getUserRoom getCustomId socket op w).1 in
  let relay := EmitToOthers socket roomID UPDATE_CODE (Operation op) in
  (∀ members : string → list string,
     recipients members relay
     = filter (λ c, c ≠ id socket) (members roomID))
  ∧ ∃ rest,
      trace w' = trace w ++ relay :: MapGet roomID :: rest
      ∧ Forall isStoreAction rest
      ∧ ∀ updatedCode,
          applyEdit (textOf (roomData w) roomID) op = Returned updatedCode →
          last rest = Some (AssignCode roomID updatedCode)
          ∧ textOf (roomData w') roomID = updatedCode.
Proof.
  intros Hc Hr w' relay. split; [done|].
  unfold w'. rewrite (updateCode_accepted _ _ _ _ _ _ _ Hc Hr). cbv zeta.
  destruct (applyEdit (textOf (roomData w) roomID) op) as [updatedCode|e].
  - destruct (storeCode_run roomID updatedCode
                (record (MapGet roomID) (record relay w)))
      as (w1 & Hrun & Hm & Ht).
    fold relay. rewrite Hrun. simpl fst. simpl in Ht, Hm.
    eexists. split.
    { rewrite Ht, <-!app_assoc. simpl. reflexivity. }
    split.
    { destruct (roomData w !! roomID); repeat constructor. }
    intros ? [= <-]. split.
    + by destruct (roomData w !! roomID).
    + unfold textOf. by rewrite Hm, lookup_insert_eq.
  - exists []. simpl. split; [by rewrite <-app_assoc|].
    split; [constructor|]. intros ? [=].
Qed.

Lemma relay_before_apply_witness :
  ∃ rest,
    trace (updateCode (λ _, Some "room") (λ _, Some "user") {| id := "s1" |}
             ("X", 1, 1, 1, 1) {| roomData := ∅; trace := [] |}).1
    = [] ++ EmitToOthers {| id := "s1" |} "room" UPDATE_CODE
              (Operation ("X", 1, 1, 1, 1))
         :: MapGet "room" :: rest.
Proof.
  pose proof (relay_before_apply (λ _, Some "room") (λ _, Some "user")
                {| id := "s1" |} ("X", 1, 1, 1, 1)
                {| roomData := ∅; trace := [] |} "room" "user"
                eq_refl eq_refl) as [_ (rest & H & _)].
  exists rest. exact H.
Defined.

(** C9 (sync reads are effect-free). For every connection whose room and
    identity resolve (to non-empty strings), [syncCode] returns, leaves
    the store as it was, and does two things: it reads the entry of the
    room and emits the text the room holds to the requesting connection.
    The requester is the only recipient of that emission, so the inbox of
    every other connection is as before; for a room without an entry the
    text sent is [""] and the room still has no entry. *)
Theorem syncCode_effect_free
    (getUserRoom : Socket → option string)
    (getCustomId : string → option string)
    (socket : Socket) (w : World) (roomID customId : string) :
  truthy (getUserRoom socket) = Some roomID →
  truthy (getCustomId (id socket)) = Some customId →
  let w' := (syncCode getUserRoom getCustomId socket w).1 in
  let reply :=
    EmitTo (id socket) SYNC_CODE (Text (textOf (roomData w) roomID)) in
  (syncCode getUserRoom getCustomId socket w).2 = Returned ()
  ∧ roomData w' = roomData w
  ∧ trace w' = trace w ++ [MapGet roomID; reply]
  ∧ (∀ members, recipients members reply = [id socket])
  ∧ (∀ members c, c ≠ id socket →
       inbox members c (trace w') = inbox members c (trace w))
  ∧ (roomData w !! roomID = None →
     reply = EmitTo (id socket) SYNC_CODE (Text "")
     ∧ roomData w' !! roomID = None).
Proof.
  intros Hr Hc w' reply. unfold w'.
  rewrite (syncCode_run _ _ _ _ _ _ Hr Hc). simpl.
  do 4 (split; [done|]). split.
  - intros members c Hne. unfold inbox.
    rewrite filter_app.
    rewrite filter_cons_False by (simpl; apply not_elem_of_nil).
    rewrite filter_cons_False
      by (simpl; by intros ?%list_elem_of_singleton).
    by rewrite filter_nil, app_nil_r.
  - intros Hnone. unfold reply, textOf. by rewrite Hnone.
Qed.

Lemma syncCode_effect_free_witness :
  roomData (syncCode (λ _, Some "room") (λ _, Some "user") {| id := "s1" |}
              {| roomData := ∅; trace := [] |}).1
  = ∅.
Proof.
  pose proof (syncCode_effect_free (λ _, Some "room") (λ _, Some "user")
                {| id := "s1" |} {| roomData := ∅; trace := [] |}
                "room" "user" eq_refl eq_refl) as (_ & H & _).
  exact H.
Defined.

(** * Further properties of the service *)

(** ** [spliceString] on arbitrary offsets *)

Section SpliceStringFacts.

Implicit Types (s t u : string).

Lemma str_take_ge n s : (String.length s ≤ n)%nat → str_take n s = s.
Proof.
  revert n. induction s as [|c s IH]; intros [|n] H; simpl in *;
    try done; try lia.
  rewrite IH; [done|lia].
Qed.

Lemma str_drop_ge n s : (String.length s ≤ n)%nat → str_drop n s = "".
Proof.
  revert n. induction s as [|c s IH]; intros [|n] H; simpl in *;
    try done; try lia.
  apply IH. lia.
Qed.

Lemma str_take_min n s :
  str_take (Nat.min n (String.length s)) s = str_take n s.
Proof.
  destruct (decide (n ≤ String.length s)%nat).
  - by rewrite Nat.min_l.
  - rewrite Nat.min_r, str_take_all, str_take_ge; [done|lia..].
Qed.

Lemma str_drop_min n s :
  str_drop (Nat.min n (String.length s)) s = str_drop n s.
Proof.
  destruct (decide (n ≤ String.length s)%nat).
  - by rewrite Nat.min_l.
  - rewrite Nat.min_r by lia. rewrite !str_drop_ge; [done|lia..].
Qed.

(** [substring(0, n)] keeps the first [n] code units, for every [n]. *)
Lemma substring_0_take s n : substring s 0 n = str_take (Z.to_nat n) s.
Proof.
  unfold substring. pose proof (strlen_nonneg s) as Hs.
  replace (Z.min (Z.max 0 0) (strlen s)) with 0 by lia.
  set (m := Z.min (Z.max n 0) (strlen s)).
  replace (Z.max 0 m - Z.min 0 m) with m by lia.
  replace (Z.min 0 m) with 0 by lia.
  change (Z.to_nat 0) with 0%nat. change (str_drop 0 s) with s.
  rewrite <-(str_take_min (Z.to_nat n)). f_equal. unfold m, strlen. lia.
Qed.

(** [substring(n)] drops the first [n] code units, for every [n]. *)
Lemma substring_from_drop s n : substring_from s n = str_drop (Z.to_nat n) s.
Proof.
  unfold substring_from, substring. pose proof (strlen_nonneg s) as Hs.
  set (m := Z.min (Z.max n 0) (strlen s)).
  replace (Z.min (Z.max (strlen s) 0) (strlen s)) with (strlen s) by lia.
  replace (Z.min m (strlen s)) with m by lia.
  replace (Z.max m (strlen s)) with (strlen s) by lia.
  rewrite str_take_ge.
  - rewrite <-(str_drop_min (Z.to_nat n)). f_equal. unfold m, strlen. lia.
  - rewrite length_str_drop. unfold m, strlen. lia.
Qed.

(** The two early returns of [spliceString] give what the concatenation
    gives. *)
Lemma spliceString_take_drop s start end_ insert :
  spliceString s start end_ insert
  = str_take (Z.to_nat start) s +:+ insert +:+ str_drop (Z.to_nat end_) s.
Proof.
  unfold spliceString.
  destruct ((start =? end_) && bool_decide (insert = "")) eqn:E1.
  { apply andb_true_iff in E1 as [E1 E2]. apply Z.eqb_eq in E1.
    apply bool_decide_eq_true in E2. subst.
    by rewrite sapp_nil_l, str_take_drop. }
  destruct ((start =? 0) && (end_ =? strlen s)) eqn:E2.
  { apply andb_true_iff in E2 as [E2 E3]. apply Z.eqb_eq in E2, E3. subst.
    unfold strlen. rewrite Nat2Z.id, str_drop_ge by lia.
    by rewrite sapp_nil_r. }
  by rewrite substring_0_take, substring_from_drop.
Qed.

Lemma endsWith_app s t : endsWith (s +:+ t) t = true.
Proof.
  unfold endsWith. rewrite strlen_app.
  pose proof (strlen_nonneg s). pose proof (strlen_nonneg t).
  destruct (strlen s + strlen t - strlen t <? 0) eqn:E; [zbool; lia|].
  apply bool_decide_eq_true.
  replace (strlen s + strlen t - strlen t) with (strlen s) by lia.
  rewrite <-strlen_app. apply substring_from_suffix.
Qed.

Lemma endsWith_inv s t : endsWith s t = true → ∃ p, s = p +:+ t.
Proof.
  unfold endsWith. destruct (_ <? 0) eqn:E; [done|].
  intros H%bool_decide_eq_true.
  exists (str_take (Z.to_nat (strlen s - strlen t)) s).
  assert (str_drop (Z.to_nat (strlen s - strlen t)) s = t) as Hd.
  { rewrite <-substring_from_drop. exact H. }
  etrans; [symmetry; apply (str_take_drop (Z.to_nat (strlen s - strlen t)))|].
  by rewrite Hd.
Qed.

End SpliceStringFacts.

(** X1. [spliceString] is the concatenation of the first [start] code
    units of [original], [insert], and [original] without its first
    [end] code units, for all integers [start] and [end]: offsets below 0
    count as 0, offsets past the end as the end, and the two early
    returns change nothing. For offsets inside the string the result has
    [start + insert.length + (original.length - end)] code units, so with
    [end < start] nothing is deleted and the stretch between the two is
    kept twice. *)
Theorem spliceString_is_take_insert_drop
    (original insert : string) (start end_ : Z) :
  spliceString original start end_ insert
  = str_take (Z.to_nat start) original +:+ insert
      +:+ str_drop (Z.to_nat end_) original
  ∧ (0 ≤ start ≤ strlen original → 0 ≤ end_ ≤ strlen original →
     strlen (spliceString original start end_ insert)
     = start + strlen insert + (strlen original - end_)).
Proof.
  split; [apply spliceString_take_drop|].
  intros Hs He. rewrite spliceString_take_drop, !strlen_app.
  unfold strlen in *. rewrite length_str_take, length_str_drop by lia. lia.
Qed.

Lemma spliceString_is_take_insert_drop_witness :
  strlen (spliceString "abcd" 3 1 "X") = 3 + 1 + (4 - 1).
Proof.
  pose proof (spliceString_is_take_insert_drop "abcd" "X" 3 1) as [_ H].
  apply H; unfold strlen; simpl; lia.
Defined.

(** ** The origin check *)

(** X15. An origin passes [isAllowedOrigin] exactly when it is absent or
    empty, or is ["http://localhost:3000"], or ends in [".vercel.app"],
    whatever comes before that ending; the second entry of
    [allowedOrigins] adds nothing to this. *)
Theorem isAllowedOrigin_iff (origin : option string) :
  isAllowedOrigin origin = true
  ↔ origin = None ∨ origin = Some ""
    ∨ origin = Some "http://localhost:3000"
    ∨ ∃ prefix, origin = Some (prefix +:+ ".vercel.app").
Proof.
  destruct origin as [o|]; simpl; [|by intuition].
  split.
  - intros H. apply orb_true_iff in H as [H|H].
    + apply orb_true_iff in H as [H|H].
      * apply bool_decide_eq_true in H. subst. auto.
      * unfold includes, allowedOrigins in H. apply bool_decide_eq_true in H.
        apply elem_of_cons in H as [->|H]; [auto|].
        apply list_elem_of_singleton in H as ->.
        do 3 right. by exists "https://code-x-real-time-code-editor-with-v".
    + apply endsWith_inv in H as [p ->]. do 3 right. by exists p.
  - intros [H|[H|[H|[p H]]]]; simplify_eq; [done..|].
    rewrite endsWith_app. apply orb_true_r.
Qed.

(** ** Edits within one line *)

Section SingleLineEdits.

Implicit Types (doc txt line : string) (a : array) (l : list string).

Lemma or_empty_get a i :
  0 ≤ i → or_empty (get a i) = default "" ((or_empty <$> a) !! Z.to_nat i).
Proof.
  intros Hi. unfold get. destruct (i <? 0) eqn:E; [zbool; lia|].
  rewrite list_lookup_fmap. by destruct (a !! Z.to_nat i) as [[v|]|].
Qed.

Lemma lookup_padded_default l n (i : nat) :
  default "" (padded l n !! i) = default "" (l !! i).
Proof.
  unfold padded. destruct (decide (i < length l)%nat).
  - by rewrite lookup_app_l.
  - rewrite lookup_app_r, (lookup_ge_None_2 l) by lia. simpl.
    destruct (replicate _ _ !! _) eqn:E; [|done].
    by apply lookup_replicate in E as [-> _].
Qed.

Lemma set_insert a i (v : string) :
  0 ≤ i < alen a → i < MAX_ARRAY_LENGTH →
  set a i v = <[Z.to_nat i := Some v]> a.
Proof.
  intros H1 H2. unfold set.
  destruct ((i <? 0) || (MAX_ARRAY_LENGTH <=? i)) eqn:E; [zbool; lia|].
  by destruct (i <? alen a) eqn:E2; [|zbool; lia].
Qed.

Lemma clampColumn_offset line c :
  Z.max 0 (Z.min (c - 1) (strlen line)) = clampColumn line c - 1.
Proof. unfold clampColumn. lia. Qed.

Lemma clampColumn_idemp line c :
  clampColumn line (clampColumn line c) = clampColumn line c.
Proof. unfold clampColumn. pose proof (strlen_nonneg line). lia. Qed.

(** The single-line branch on a start line from 1 to 2^32 - 1: the
    document, padded to [s] lines, with line [s] edited ([join] sets no
    bound on the text). *)
Lemma applyEdit_single doc txt s sc ec :
  1 ≤ s ≤ MAX_ARRAY_LENGTH →
  applyEdit doc (txt, s, sc, s, ec)
  = Returned (join_strings
                (<[Z.to_nat (s - 1) := editedLine (lineAt doc s) txt sc ec]>
                   (padded (split doc) s))).
Proof.
  intros Hs. unfold applyEdit.
  rewrite padLines_returns by lia. unfold mbind at 1, outcome_bind at 1.
  rewrite Z.ltb_irrefl, andb_false_r, Z.eqb_refl. simpl andb. cbv iota.
  unfold mbind, outcome_bind. f_equal.
  set (a := of_strings (split doc) ++ _).
  assert (or_empty <$> a = padded (split doc) s) as Ha
    by apply or_empty_padLines.
  assert (alen a = Z.max (Z.of_nat (length (split doc))) s) as Hlen.
  { unfold a. rewrite alen_app, alen_of_strings. unfold alen.
    rewrite length_replicate. lia. }
  unfold editSingleLine.
  assert (or_empty (get a (s - 1)) = lineAt doc s) as ->.
  { rewrite or_empty_get, Ha, lookup_padded_default by lia.
    unfold lineAt. by destruct (s <? 1) eqn:E; [zbool; lia|]. }
  rewrite !clampColumn_offset, spliceString_take_drop.
  rewrite set_insert by lia.
  unfold join. by rewrite list_fmap_insert, Ha.
Qed.

(** The joined text of lines around a line that is cut in two. *)
Lemma join_strings_fuse l (s t : string) k :
  join_strings (l ++ (s +:+ t) :: k)
  = join_strings (l ++ [s]) +:+ join_strings (t :: k).
Proof.
  induction l as [|x l IH]; simpl app.
  - destruct k; [done|]. by rewrite !join_strings_cons_cons, sapp_assoc.
  - destruct (l ++ (s +:+ t) :: k) eqn:E1; [by destruct l|].
    destruct (l ++ [s]) eqn:E2; [by destruct l|].
    by rewrite !join_strings_cons_cons, IH, !sapp_assoc.
Qed.

Lemma lineCount_lastLine (pre : string) l (e0 : string) :
  split pre = l ++ [e0] →
  lineCount pre = Z.of_nat (length l) + 1 ∧ lastLine pre = e0.
Proof.
  intros H. unfold lineCount, lastLine. rewrite H, length_app. simpl.
  split; [lia|]. apply List.last_last.
Qed.

Lemma split_snoc_exists (s : string) : ∃ l e0, split s = l ++ [e0].
Proof.
  pose proof (split_nonempty s) as H.
  apply last_is_Some in H as [e0 H]. apply last_Some in H as [l H]. eauto.
Qed.

(** The lines of [pre ++ old ++ post] for [old] without newline. *)
Lemma split_around_word (pre old post : string) l e0 p0 k :
  split pre = l ++ [e0] → single_line old = true → split post = p0 :: k →
  split (pre +:+ old +:+ post) = l ++ (e0 +:+ old +:+ p0) :: k.
Proof.
  intros Hpre Hold Hpost.
  apply (split_app pre _ l e0 (old +:+ p0) k); [done|].
  apply (split_app old post [] old p0 k); [|done].
  by apply split_of_single_line.
Qed.

(** A replace inside one line, on the text: the stretch [old] after
    [pre] becomes [txt]. *)
Lemma applyEdit_single_text (pre old post txt : string) :
  single_line old = true → lineCount pre ≤ MAX_ARRAY_LENGTH →
  applyEdit (pre +:+ old +:+ post)
    (txt, lineCount pre, strlen (lastLine pre) + 1,
     lineCount pre, strlen (lastLine pre) + strlen old + 1)
  = Returned (pre +:+ txt +:+ post).
Proof.
  intros Hold Hmax.
  destruct (split_snoc_exists pre) as (l & e0 & Hpre).
  destruct (split_cons post) as (p0 & k & Hpost).
  destruct (lineCount_lastLine pre l e0 Hpre) as [Hn Hl].
  pose proof (split_around_word pre old post l e0 p0 k Hpre Hold Hpost)
    as Hdoc.
  rewrite applyEdit_single by lia. f_equal.
  rewrite Hdoc, padded_in_range by (rewrite length_app, length_cons; lia).
  assert (lineAt (pre +:+ old +:+ post) (lineCount pre)
          = e0 +:+ old +:+ p0) as ->.
  { unfold lineAt. destruct (_ <? 1) eqn:E; [zbool; lia|].
    rewrite Hdoc, Hn.
    replace (Z.to_nat (Z.of_nat (length l) + 1 - 1)) with (length l) by lia.
    by rewrite list_lookup_middle. }
  rewrite Hn, Hl.
  replace (Z.to_nat (Z.of_nat (length l) + 1 - 1)) with (length l) by lia.
  rewrite insert_app_r_alt, Nat.sub_diag by lia. simpl insert.
  pose proof (strlen_nonneg e0). pose proof (strlen_nonneg old).
  pose proof (strlen_nonneg p0).
  unfold editedLine, clampColumn. rewrite !strlen_app.
  replace (Z.to_nat (Z.max 1 (Z.min (strlen e0 + 1) _) - 1))
    with (String.length e0) by (unfold strlen in *; lia).
  replace (Z.to_nat (Z.max 1 (Z.min (strlen e0 + strlen old + 1) _) - 1))
    with (String.length (e0 +:+ old)).
  2:{ pose proof (strlen_app e0 old). unfold strlen in *. lia. }
  rewrite str_take_app, <-(sapp_assoc e0 old p0), str_drop_app.
  rewrite join_strings_fuse, <-Hpre, join_split.
  change (join_strings ((txt +:+ p0) :: k))
    with (join_strings ([] ++ (txt +:+ p0) :: k)).
  by rewrite join_strings_fuse, <-Hpost, join_split.
Qed.

End SingleLineEdits.

Section SingleLineProperties.

Implicit Types (doc txt : string).

Lemma lineCount_app (s t : string) :
  lineCount (s +:+ t) = lineCount s + lineCount t - 1.
Proof.
  destruct (split_snoc_exists s) as (l & e0 & Hs).
  destruct (split_cons t) as (b & k & Ht).
  unfold lineCount. rewrite (split_app s t l e0 b k Hs Ht), Hs, Ht.
  rewrite !length_app, !length_cons. simpl. lia.
Qed.

Lemma lineCount_single_line (s : string) :
  single_line s = true → lineCount s = 1.
Proof. intros H. unfold lineCount. by rewrite split_of_single_line. Qed.

Lemma insert_last_replicate {A} (m : nat) (x y : A) :
  <[m := x]> (replicate (S m) y) = replicate m y ++ [x].
Proof. induction m as [|m IH]; [done|]. simpl in *. by rewrite IH. Qed.

(** The line array the branches work on, for a start line that
    [padLines] accepts. *)
Lemma padLines_cases (a : list (option string)) n :
  (padLines a n = Raised RangeError ∧ alen a < n ∧ MAX_ARRAY_LENGTH < n)
  ∨ padLines a n = Returned (a ++ replicate (Z.to_nat (n - alen a)) None).
Proof.
  destruct (decide (n ≤ MAX_ARRAY_LENGTH)).
  { right. by apply padLines_returns. }
  destruct (decide (n ≤ alen a)).
  - right. rewrite padLines_in_range by done.
    replace (Z.to_nat (n - alen a)) with 0%nat by lia.
    by rewrite app_nil_r.
  - left. split; [apply padLines_raises; lia|lia].
Qed.

Lemma lineAt_padLines doc s :
  or_empty
    (get (of_strings (split doc)
            ++ replicate (Z.to_nat (s - alen (of_strings (split doc)))) None)
       (s - 1))
  = lineAt doc s.
Proof.
  unfold lineAt. destruct (s <? 1) eqn:E; zbool.
  - unfold get. by destruct (s - 1 <? 0) eqn:E2; [|zbool; lia].
  - by rewrite or_empty_get, or_empty_padLines, lookup_padded_default by lia.
Qed.

End SingleLineProperties.

(** ** The length of the text *)

Section TextLength.

Implicit Types (doc txt : string) (l k : list string).

Lemma strlen_NL : strlen NL = 1.
Proof. reflexivity. Qed.


Lemma chars_app l k : chars (l ++ k) = chars l + chars k.
Proof. induction l as [|x l IH]; simpl; [done|]. rewrite IH. lia. Qed.

Lemma chars_replicate_empty n : chars (replicate n "") = 0.
Proof. induction n as [|n IH]; simpl; [done|]. by rewrite IH. Qed.

(** The joined text holds the lines and one newline between any two. *)
Lemma strlen_join_strings l :
  strlen (join_strings l) = chars l + Z.max 0 (Z.of_nat (length l) - 1).
Proof.
  induction l as [|x [|y l] IH]; [done|simpl; lia|].
  rewrite join_strings_cons_cons, !strlen_app, strlen_NL, IH.
  simpl chars. simpl length. lia.
Qed.

Lemma chars_split doc : strlen doc = chars (split doc) + lineCount doc - 1.
Proof.
  rewrite <-(join_split doc) at 1. rewrite strlen_join_strings.
  unfold lineCount. pose proof (split_nonempty doc).
  destruct (split doc); [done|]. simpl length. lia.
Qed.









(** The applier on an engine with a bound on strings: the text of
    [applyEdit], when it is short enough. *)
Lemma applyEditWithin_applyEdit maxLength doc (op : EditOp) :
  applyEditWithin maxLength doc op
  = match applyEdit doc op with
    | Returned updatedCode =>
        if strlen updatedCode <=? maxLength then Returned updatedCode
        else Raised RangeError
    | Raised e => Raised e
    end.
Proof.
  destruct op as [[[[txt s] sc] e] ec]. unfold applyEditWithin, applyEdit.
  destruct (padLines _ _) as [a|?]; [|done].
  unfold mbind at 1 3, outcome_bind at 1 3.
  destruct (_ && _ && _ && _).
  { by destruct (splice _ _ _ _). }
  destruct (s =? e); [done|].
  by destruct (editMultiLine _ _ _ _ _ _).
Qed.

End TextLength.

(** X2. A replace inside one line is a replace of the text: when [old],
    a stretch without newline, follows [pre] in the document, the
    operation whose range starts at the position after [pre], ends
    [old.length] columns later on the same line, and carries [txt]
    returns the document with [txt] in the place of [old] — also for a
    [txt] with newlines; the number of lines then grows by the number of
    newlines of [txt]. (The start line is at most 2^32 - 1.) *)
Theorem single_line_edit_replaces_range (pre old post txt : string) :
  single_line old = true → lineCount pre ≤ MAX_ARRAY_LENGTH →
  applyEdit (pre +:+ old +:+ post)
    (txt, lineCount pre, strlen (lastLine pre) + 1,
     lineCount pre, strlen (lastLine pre) + strlen old + 1)
  = Returned (pre +:+ txt +:+ post)
  ∧ lineCount (pre +:+ txt +:+ post)
    = lineCount (pre +:+ old +:+ post) + (lineCount txt - 1).
Proof.
  intros Hold Hmax. split; [by apply applyEdit_single_text|].
  rewrite !lineCount_app, (lineCount_single_line old Hold). lia.
Qed.

Lemma single_line_edit_replaces_range_witness :
  applyEdit ("one" +:+ NL +:+ "two")
    ("X" +:+ NL +:+ "Y", 2, 2, 2, 3)
  = Returned ("one" +:+ NL +:+ "tX" +:+ NL +:+ "Yo").
Proof.
  pose proof (single_line_edit_replaces_range ("one" +:+ NL +:+ "t") "w" "o"
                ("X" +:+ NL +:+ "Y") eq_refl
                ltac:(unfold MAX_ARRAY_LENGTH, lineCount; simpl; lia))
    as [H _].
  exact H.
Defined.

(** X3. Typing a text without newline at a position and then deleting
    the columns it occupies gives the document back: after
    [(txt, L, C, L, C)] at the position [(L, C)] that follows [pre], the
    operation [("", L, C, L, C + txt.length)] restores [pre ++ post]. *)
Theorem insert_then_delete_restores (pre post txt : string) :
  single_line txt = true → lineCount pre ≤ MAX_ARRAY_LENGTH →
  let L := lineCount pre in
  let C := strlen (lastLine pre) + 1 in
  applyEdit (pre +:+ post) (txt, L, C, L, C) = Returned (pre +:+ txt +:+ post)
  ∧ applyEdit (pre +:+ txt +:+ post) ("", L, C, L, C + strlen txt)
    = Returned (pre +:+ post).
Proof.
  intros Htxt Hmax L C. split.
  - pose proof (applyEdit_single_text pre "" post txt eq_refl Hmax) as H.
    rewrite strlen_nil, Z.add_0_r in H. exact H.
  - pose proof (applyEdit_single_text pre txt post "" Htxt Hmax) as H.
    replace (strlen (lastLine pre) + strlen txt + 1)
      with (C + strlen txt) in H by (unfold C; lia).
    exact H.
Qed.

Lemma insert_then_delete_restores_witness :
  applyEdit "ab" ("XY", 1, 2, 1, 2) = Returned "aXYb"
  ∧ applyEdit "aXYb" ("", 1, 2, 1, 4) = Returned "ab".
Proof.
  exact (insert_then_delete_restores "a" "b" "XY" eq_refl
           ltac:(unfold MAX_ARRAY_LENGTH, lineCount; simpl; lia)).
Defined.

(** X4. A single-line edit whose line lies past the end of the document
    (and is at most 2^32 - 1) adds empty lines up to that line and puts
    the text there, whatever the columns are. The text grows by one
    newline for each line from the end of the document to the start
    line; on an engine whose strings hold [maxLength] code units the
    edit is applied when the new text fits, and raises [RangeError]
    when it does not. *)
Theorem edit_past_the_end_pads
    (maxLength : Z) (doc txt : string) (s sc ec : Z) :
  lineCount doc < s → s ≤ MAX_ARRAY_LENGTH →
  let updatedCode :=
    join_strings
      (split doc ++ replicate (Z.to_nat (s - lineCount doc - 1)) "" ++ [txt]) in
  strlen updatedCode = strlen doc + (s - lineCount doc) + strlen txt
  ∧ applyEditWithin maxLength doc (txt, s, sc, s, ec)
    = if strlen updatedCode <=? maxLength then Returned updatedCode
      else Raised RangeError.
Proof.
  intros H1 H2 updatedCode. pose proof (split_nonempty doc) as Hne.
  split.
  { unfold updatedCode.
    rewrite strlen_join_strings, !chars_app, chars_replicate_empty.
    rewrite !length_app, length_replicate, (chars_split doc).
    unfold lineCount in *. simpl. lia. }
  rewrite applyEditWithin_applyEdit.
  unfold lineCount in *.
  assert (0 < Z.of_nat (length (split doc)))
    by (destruct (split doc); simpl; [done|lia]).
  rewrite applyEdit_single by lia.
  assert (lineAt doc s = "") as ->.
  { unfold lineAt. destruct (s <? 1) eqn:E; [done|].
    by rewrite lookup_ge_None_2 by lia. }
  assert (editedLine "" txt sc ec = txt) as ->.
  { unfold editedLine.
    destruct (Z.to_nat (clampColumn "" sc - 1));
      destruct (Z.to_nat (clampColumn "" ec - 1)); simpl;
      by rewrite sapp_nil_r. }
  assert (<[Z.to_nat (s - 1):=txt]> (padded (split doc) s)
          = split doc
              ++ replicate (Z.to_nat (s - Z.of_nat (length (split doc)) - 1)) ""
              ++ [txt]) as ->; [|done].
  unfold padded.
  rewrite insert_app_r_alt by lia. f_equal.
  replace (Z.to_nat (s - Z.of_nat (length (split doc))))
    with (S (Z.to_nat (s - Z.of_nat (length (split doc)) - 1))) by lia.
  replace (Z.to_nat (s - 1) - length (split doc))%nat
    with (Z.to_nat (s - Z.of_nat (length (split doc)) - 1)) by lia.
  by rewrite insert_last_replicate.
Qed.

Lemma edit_past_the_end_pads_witness :
  applyEditWithin 4 "a" ("X", 3, 7, 3, 9)
  = Returned ("a" +:+ NL +:+ NL +:+ "X")
  ∧ applyEditWithin 3 "a" ("X", 3, 7, 3, 9) = Raised RangeError.
Proof.
  split.
  - exact (proj2 (edit_past_the_end_pads 4 "a" "X" 3 7 9
                    ltac:(unfold lineCount; simpl; lia)
                    ltac:(unfold MAX_ARRAY_LENGTH; lia))).
  - exact (proj2 (edit_past_the_end_pads 3 "a" "X" 3 7 9
                    ltac:(unfold lineCount; simpl; lia)
                    ltac:(unfold MAX_ARRAY_LENGTH; lia))).
Defined.

(** X5. A single-line edit addressed to a line number below 1 changes
    nothing: the applier returns the document as it is, and the text of
    the operation is lost. *)
Theorem edit_below_first_line_is_ignored (doc txt : string) (s sc ec : Z) :
  s ≤ 0 → applyEdit doc (txt, s, sc, s, ec) = Returned doc.
Proof.
  intros Hs. unfold applyEdit.
  rewrite padLines_in_range by (pose proof (alen_nonneg (of_strings (split doc))); lia).
  unfold mbind at 1, outcome_bind at 1.
  rewrite Z.ltb_irrefl, andb_false_r, Z.eqb_refl. simpl andb. cbv iota.
  unfold mbind, outcome_bind, editSingleLine, set.
  destruct (s - 1 <? 0) eqn:E; [|zbool; lia]. simpl orb. cbv iota.
  by rewrite join_of_strings, join_split.
Qed.

Lemma edit_below_first_line_is_ignored_witness :
  applyEdit "ab" ("X", 0, 1, 0, 1) = Returned "ab".
Proof. exact (edit_below_first_line_is_ignored "ab" "X" 0 1 1 ltac:(lia)). Defined.

(** X6. In a single-line edit a column outside the line acts as the
    nearest column of the line: a column below 1 as column 1, a column
    past the end as the column after the last character (of the empty
    line, when the document has no such line). This holds for every
    line number and every pair of columns. *)
Theorem single_line_edit_clamps_columns (doc txt : string) (s sc ec : Z) :
  applyEdit doc (txt, s, sc, s, ec)
  = applyEdit doc (txt, s, clampColumn (lineAt doc s) sc,
                   s, clampColumn (lineAt doc s) ec).
Proof.
  unfold applyEdit.
  destruct (padLines_cases (of_strings (split doc)) s) as [(-> & _)| ->];
    [done|].
  unfold mbind at 1 3, outcome_bind at 1 3.
  rewrite Z.ltb_irrefl, !andb_false_r, Z.eqb_refl. simpl andb. cbv iota.
  unfold mbind, outcome_bind, editSingleLine. do 2 f_equal.
  rewrite lineAt_padLines, !clampColumn_offset, !clampColumn_idemp. done.
Qed.

(** ** Edits over several lines *)

Section MultiLineEdits.

Implicit Types (doc txt : string) (l k : list string).

Lemma set_of_strings_middle l (x v : string) k :
  Z.of_nat (length l) < MAX_ARRAY_LENGTH →
  set (of_strings (l ++ x :: k)) (Z.of_nat (length l)) v
  = of_strings (l ++ v :: k).
Proof.
  intros H. rewrite set_insert.
  - rewrite Nat2Z.id. unfold of_strings.
    rewrite <-list_fmap_insert, insert_app_r_alt, Nat.sub_diag by lia. done.
  - rewrite alen_of_strings, length_app, length_cons. lia.
  - done.
Qed.

Lemma splice_of_strings_middle l mid items k :
  Z.of_nat (length items) ≤ Z.of_nat (length mid)
  ∨ Z.of_nat (length (l ++ items ++ k)) ≤ MAX_ARRAY_LENGTH →
  splice (of_strings (l ++ mid ++ k)) (Z.of_nat (length l))
    (Z.of_nat (length mid)) items
  = Returned (of_strings (l ++ items ++ k)).
Proof.
  intros H. rewrite splice_in_range.
  - f_equal. rewrite Nat2Z.id, !of_strings_app.
    rewrite <-(length_fmap Some l) at 1. rewrite take_app_length.
    do 2 f_equal.
    replace (Z.to_nat (Z.of_nat (length l) + Z.of_nat (length mid)))
      with (length (of_strings l ++ of_strings mid)).
    2:{ unfold of_strings. rewrite length_app, !length_fmap. lia. }
    by rewrite app_assoc, drop_app_length.
  - lia.
  - lia.
  - rewrite alen_of_strings, !length_app. lia.
  - rewrite alen_of_strings. rewrite !length_app in *. lia.
Qed.

(** The multi-line branch with a text of at least two lines, inside the
    document: the first line of the text continues the start line, the
    last line of the text is continued by the end line, and the lines in
    between replace the lines in between. *)
Lemma editMultiLine_replaces l1 (a b : string) l2 (c d : string) l3
    txt (t0 : string) T (tk : string) :
  split txt = t0 :: T ++ [tk] →
  Z.of_nat (length (l1 ++ (a +:+ b) :: l2 ++ (c +:+ d) :: l3))
    ≤ MAX_ARRAY_LENGTH →
  Z.of_nat (length (l1 ++ (a +:+ t0) :: T ++ (tk +:+ d) :: l3))
    ≤ MAX_ARRAY_LENGTH →
  editMultiLine (of_strings (l1 ++ (a +:+ b) :: l2 ++ (c +:+ d) :: l3)) txt
    (Z.of_nat (length l1) + 1) (strlen a + 1)
    (Z.of_nat (length l1) + Z.of_nat (length l2) + 2) (strlen c + 1)
  = Returned (of_strings (l1 ++ (a +:+ t0) :: T ++ (tk +:+ d) :: l3)).
Proof.
  intros Htxt Hdoc Hres. unfold editMultiLine. rewrite Htxt.
  replace (Z.of_nat (length l1) + 1 - 1) with (Z.of_nat (length l1)) by lia.
  assert (Z.of_nat (length l1) + Z.of_nat (length l2) + 2 - 1
          = Z.of_nat (length (l1 ++ (a +:+ b) :: l2))) as ->.
  { rewrite length_app, length_cons. lia. }
  set (lines := of_strings (l1 ++ (a +:+ b) :: l2 ++ (c +:+ d) :: l3)).
  assert (get lines (Z.of_nat (length l1)) = Some (a +:+ b)) as Hs
    by apply get_middle.
  assert (get lines (Z.of_nat (length (l1 ++ (a +:+ b) :: l2)))
          = Some (c +:+ d)) as He.
  { unfold lines.
    replace (l1 ++ (a +:+ b) :: l2 ++ (c +:+ d) :: l3)
      with ((l1 ++ (a +:+ b) :: l2) ++ (c +:+ d) :: l3)
      by (by rewrite <-app_assoc).
    apply get_middle. }
  rewrite Hs, He. clear Hs He. subst lines. simpl or_empty.
  pose proof (strlen_nonneg a). pose proof (strlen_nonneg b).
  pose proof (strlen_nonneg c). pose proof (strlen_nonneg d).
  rewrite !strlen_app.
  replace (Z.min (Z.max 0 (strlen a + 1 - 1)) _) with (strlen a) by lia.
  replace (Z.min (Z.max 0 (strlen c + 1 - 1)) _) with (strlen c) by lia.
  change ((t0 :: T ++ [tk]) !!! 0%nat) with t0.
  assert ((t0 :: T ++ [tk]) !!! (length (t0 :: T ++ [tk]) - 1)%nat = tk)
    as ->.
  { rewrite app_comm_cons. apply list_lookup_total_middle.
    rewrite length_app, !length_cons. simpl. lia. }
  assert (spliceString (a +:+ b) (strlen a) (strlen a + strlen b) t0
          = a +:+ t0) as ->.
  { rewrite <-(sapp_nil_r b) at 1.
    by rewrite spliceString_replaces, sapp_nil_r. }
  assert (spliceString (c +:+ d) 0 (strlen c) tk = tk +:+ d) as ->.
  { apply (spliceString_replaces "" c d tk). }
  assert (Z.of_nat (length (l1 ++ (a +:+ b) :: l2)) - Z.of_nat (length l1) + 1
          = Z.of_nat (length l2) + 2) as ->
    by (rewrite length_app, length_cons; lia).
  rewrite !length_app, !length_cons, !length_app, !length_cons in Hdoc, Hres.
  destruct (Z.of_nat (length (t0 :: T ++ [tk])) =? 2) eqn:E; zbool.
  - assert (T = []) as ->.
    { rewrite length_cons, length_app in E. destruct T; [done|].
      simpl in E. lia. }
    rewrite set_of_strings_middle by lia.
    destruct l2 as [|y l2].
    + replace (l1 ++ (a +:+ t0) :: [] ++ (c +:+ d) :: l3)
        with ((l1 ++ [a +:+ t0]) ++ (c +:+ d) :: l3)
        by (by rewrite <-app_assoc).
      replace (Z.of_nat (length l1) + 1)
        with (Z.of_nat (length (l1 ++ [a +:+ t0])))
        by (rewrite length_app; simpl; lia).
      rewrite set_of_strings_middle
        by (rewrite length_app; simpl in *; lia).
      destruct (2 <? _) eqn:E2; [zbool; simpl in E2; lia|].
      by rewrite <-app_assoc.
    + replace (l1 ++ (a +:+ t0) :: (y :: l2) ++ (c +:+ d) :: l3)
        with ((l1 ++ [a +:+ t0]) ++ y :: l2 ++ (c +:+ d) :: l3)
        by (by rewrite <-app_assoc).
      replace (Z.of_nat (length l1) + 1)
        with (Z.of_nat (length (l1 ++ [a +:+ t0])))
        by (rewrite length_app; simpl; lia).
      rewrite set_of_strings_middle
        by (rewrite length_app; simpl in *; lia).
      destruct (2 <? _) eqn:E2; [|zbool; simpl in E2; lia].
      replace ((l1 ++ [a +:+ t0]) ++ (tk +:+ d) :: l2 ++ (c +:+ d) :: l3)
        with ((l1 ++ [a +:+ t0; tk +:+ d]) ++ (l2 ++ [c +:+ d]) ++ l3)
        by (by rewrite <-!app_assoc).
      replace (Z.of_nat (length l1) + 2)
        with (Z.of_nat (length (l1 ++ [a +:+ t0; tk +:+ d])))
        by (rewrite !length_app; simpl; lia).
      replace (Z.of_nat (length (y :: l2)) + 2 - 2)
        with (Z.of_nat (length (l2 ++ [c +:+ d])))
        by (rewrite length_app; simpl; lia).
      rewrite (splice_of_strings_middle _ _ []) by (left; simpl; lia).
      by rewrite <-!app_assoc.
  - rewrite slice_inner.
    replace (l1 ++ (a +:+ b) :: l2 ++ (c +:+ d) :: l3)
      with (l1 ++ ((a +:+ b) :: l2 ++ [c +:+ d]) ++ l3)
      by (simpl; by rewrite <-app_assoc).
    replace (Z.of_nat (length l2) + 2)
      with (Z.of_nat (length ((a +:+ b) :: l2 ++ [c +:+ d])))
      by (rewrite length_cons, length_app; simpl; lia).
    rewrite splice_of_strings_middle.
    + do 2 f_equal. simpl. by rewrite <-!app_assoc.
    + right. rewrite !length_app. simpl length. rewrite ?length_app.
      simpl length. lia.
Qed.

Lemma split_two_lines (s : string) :
  2 ≤ lineCount s → ∃ h l z, split s = h :: l ++ [z].
Proof.
  unfold lineCount. intros H.
  destruct (split s) as [|h q] eqn:E; [simpl in H; lia|].
  destruct q as [|y q] using rev_ind; [simpl in H; lia|]. eauto.
Qed.

End MultiLineEdits.

(** X7. A replace over several lines with a text of several lines is a
    replace of the text: when [old], a stretch with at least one newline,
    follows [pre] in the document, the operation whose range runs from
    the position after [pre] to the position after [pre ++ old] and whose
    text [txt] has at least one newline returns the document with [txt]
    in the place of [old]. (Document and result have at most 2^32 - 1
    lines.) *)
Theorem multi_line_edit_replaces_range (pre old post txt : string) :
  2 ≤ lineCount old → 2 ≤ lineCount txt →
  lineCount (pre +:+ old +:+ post) ≤ MAX_ARRAY_LENGTH →
  lineCount (pre +:+ txt +:+ post) ≤ MAX_ARRAY_LENGTH →
  applyEdit (pre +:+ old +:+ post)
    (txt, lineCount pre, strlen (lastLine pre) + 1,
     lineCount (pre +:+ old), strlen (lastLine (pre +:+ old)) + 1)
  = Returned (pre +:+ txt +:+ post).
Proof.
  intros Hold Htxt Hdoc Hres.
  destruct (split_snoc_exists pre) as (X & a & Hpre).
  destruct (split_two_lines old Hold) as (o0 & O & ok & Ho).
  destruct (split_two_lines txt Htxt) as (t0 & T & tk & Ht).
  destruct (split_cons post) as (p0 & P & Hpost).
  destruct (lineCount_lastLine pre X a Hpre) as [Hn Hl].
  assert (split (pre +:+ old) = (X ++ (a +:+ o0) :: O) ++ [ok]) as Hpo.
  { rewrite (split_app pre old X a o0 (O ++ [ok]) Hpre Ho).
    by rewrite <-app_assoc. }
  destruct (lineCount_lastLine _ _ _ Hpo) as [Hn2 Hl2].
  assert (split (pre +:+ old +:+ post)
          = X ++ (a +:+ o0) :: O ++ (ok +:+ p0) :: P) as Hsplit.
  { apply (split_app pre _ X a o0 (O ++ (ok +:+ p0) :: P)); [done|].
    rewrite app_comm_cons.
    apply (split_app old post (o0 :: O) ok p0 P); [|done].
    by rewrite Ho. }
  rewrite !lineCount_app in Hdoc, Hres.
  unfold lineCount in Hdoc, Hres. rewrite Hpre, Ho, Ht, Hpost in *.
  rewrite !length_app, !length_cons, !length_app in Hdoc, Hres.
  simpl length in Hdoc, Hres.
  unfold applyEdit.
  rewrite padLines_in_range.
  2:{ rewrite alen_of_strings, Hsplit, Hn, length_app, length_cons. lia. }
  unfold mbind at 1, outcome_bind at 1.
  rewrite bool_decide_eq_false_2.
  2:{ intros ->. unfold lineCount in Htxt. simpl in Htxt. lia. }
  simpl andb. cbv iota.
  rewrite Hn, Hn2, Hl, Hl2.
  destruct (_ =? _) eqn:E;
    [zbool; rewrite length_app, length_cons in E; lia|].
  rewrite Hsplit.
  replace (Z.of_nat (length (X ++ (a +:+ o0) :: O)) + 1)
    with (Z.of_nat (length X) + Z.of_nat (length O) + 2)
    by (rewrite length_app, length_cons; lia).
  rewrite (editMultiLine_replaces X a o0 O ok p0 P txt t0 T tk Ht).
  2,3: rewrite !length_app, !length_cons, !length_app, !length_cons; lia.
  unfold mbind, outcome_bind. f_equal.
  rewrite join_of_strings, join_strings_fuse, <-Hpre, join_split.
  rewrite app_comm_cons, join_strings_fuse.
  by rewrite <-app_comm_cons, <-Ht, <-Hpost, !join_split.
Qed.

Lemma multi_line_edit_replaces_range_witness :
  applyEdit ("ab" +:+ NL +:+ "cd") ("X" +:+ NL +:+ "Y", 1, 2, 2, 2)
  = Returned ("aX" +:+ NL +:+ "Yd").
Proof.
  exact (multi_line_edit_replaces_range "a" ("b" +:+ NL +:+ "c") "d"
           ("X" +:+ NL +:+ "Y")
           ltac:(unfold lineCount; simpl; lia)
           ltac:(unfold lineCount; simpl; lia)
           ltac:(unfold MAX_ARRAY_LENGTH, lineCount; simpl; lia)
           ltac:(unfold MAX_ARRAY_LENGTH, lineCount; simpl; lia)).
Defined.



(** ** The store and the language handlers *)

Section LanguageFacts.

Variable getUserRoom : Socket → option string.
Variable getCustomId : string → option string.

Implicit Types (w : World) (socket : Socket) (roomID : string).

Lemma truthy_Some (v : option string) (x : string) :
  truthy v = Some x ↔ v = Some x ∧ x ≠ "".
Proof.
  destruct v as [y|]; simpl.
  - case_bool_decide as E.
    + split; [done|]. intros [[= <-] ?]. done.
    + split; [by intros [= <-]|by intros [[= <-] _]].
  - split; [done|by intros [? _]].
Qed.

Lemma setLang_run_trace roomID (v : string) w :
  setLang roomID v w
  = ({| roomData :=
          <[roomID := {| code := textOf (roomData w) roomID; langId := v |}]>
            (roomData w);
        trace := trace w ++ MapGet roomID
                   :: (if roomData w !! roomID is None
                       then [MapSet roomID
                               {| code := ""; langId := DEFAULT_LANG_ID |}]
                       else [])
                   ++ [AssignLangId roomID v] |},
     Returned ()).
Proof.
  destruct (initializeRoom_run roomID w) as (w1 & data & H & H1 & -> & H3 & H4).
  unfold setLang, mbind, handler_bind, assign_langId. rewrite H.
  f_equal. destruct w1 as [m t]. simpl in *. subst. f_equal.
  - by rewrite alter_insert_eq.
  - rewrite <-app_assoc. simpl. do 2 f_equal.
    unfold textOf, langOf. by destruct (roomData w !! roomID).
Qed.

Lemma updateLang_run socket (tag : string) w roomID customId :
  truthy (getUserRoom socket) = Some roomID →
  truthy (getCustomId (id socket)) = Some customId →
  updateLang getUserRoom getCustomId socket tag w
  = ({| roomData :=
          <[roomID := {| code := textOf (roomData w) roomID; langId := tag |}]>
            (roomData w);
        trace := trace w ++ MapGet roomID
                   :: (if roomData w !! roomID is None
                       then [MapSet roomID
                               {| code := ""; langId := DEFAULT_LANG_ID |}]
                       else [])
                   ++ [AssignLangId roomID tag;
                       EmitToOthers socket roomID UPDATE_LANG (Text tag)] |},
     Returned ()).
Proof.
  intros Hr Hc. unfold updateLang. rewrite Hr, Hc.
  unfold mbind, handler_bind. rewrite setLang_run_trace.
  unfold emit_to_others, record. simpl. do 2 f_equal.
  rewrite <-!app_assoc. simpl. do 2 f_equal. by rewrite <-app_assoc.
Qed.

Lemma syncLang_run socket w roomID customId :
  truthy (getUserRoom socket) = Some roomID →
  truthy (getCustomId (id socket)) = Some customId →
  syncLang getUserRoom getCustomId socket w
  = ({| roomData := roomData w;
        trace := trace w
                 ++ [MapGet roomID;
                     EmitTo (id socket) UPDATE_LANG
                       (Text (or_else (langId <$> roomData w !! roomID)
                                DEFAULT_LANG_ID))] |},
     Returned ()).
Proof.
  intros Hr Hc. unfold syncLang. rewrite Hr, Hc.
  unfold mbind, handler_bind. rewrite getLang_run.
  unfold emit_to, record. simpl. by rewrite <-app_assoc.
Qed.

End LanguageFacts.

(** X9. Whatever [updateCode] does — drop the edit, throw, or store the
    new text — it leaves the entry of every room other than the sender's
    as it was, and the language tag of every room, the sender's
    included. *)
Theorem updateCode_changes_one_text_only
    (getUserRoom : Socket → option string)
    (getCustomId : string → option string)
    (socket : Socket) (op : EditOp) (w : World) (r : string) :
  let w' := (updateCode getUserRoom getCustomId socket op w).1 in
  (getUserRoom socket ≠ Some r → roomData w' !! r = roomData w !! r)
  ∧ langOf (roomData w') r = langOf (roomData w) r.
Proof.
  intros w'. unfold w'. clear w'.
  destruct (truthy (getCustomId (id socket))) as [customId|] eqn:Hc.
  2:{ by rewrite updateCode_dropped by auto. }
  destruct (truthy (getUserRoom socket)) as [roomID|] eqn:Hr.
  2:{ by rewrite updateCode_dropped by auto. }
  rewrite (updateCode_accepted _ _ _ _ _ _ _ Hc Hr). cbv zeta.
  destruct (applyEdit _ _) as [updatedCode|e]; [|done].
  destruct (storeCode_run roomID updatedCode
              (record (MapGet roomID)
                 (record (EmitToOthers socket roomID UPDATE_CODE
                            (Operation op)) w)))
    as (w1 & -> & Hm & _).
  simpl in *. rewrite Hm. apply truthy_Some in Hr as [Hr _]. split.
  - intros Hne. apply lookup_insert_ne. congruence.
  - unfold langOf at 1. destruct (decide (roomID = r)) as [->|Hne].
    + by rewrite lookup_insert_eq.
    + by rewrite lookup_insert_ne.
Qed.

Lemma updateCode_changes_one_text_only_witness :
  roomData (updateCode (λ _, Some "room") (λ _, Some "user") {| id := "s1" |}
              ("X", 1, 1, 1, 1)
              {| roomData := {["other" := {| code := "c"; langId := "go" |}]};
                 trace := [] |}).1 !! "other"
  = Some {| code := "c"; langId := "go" |}.
Proof.
  pose proof (updateCode_changes_one_text_only (λ _, Some "room")
                (λ _, Some "user") {| id := "s1" |} ("X", 1, 1, 1, 1)
                {| roomData := {["other" := {| code := "c"; langId := "go" |}]};
                   trace := [] |} "other") as [H _].
  rewrite H; [reflexivity|discriminate].
Defined.

(** X10. An accepted [updateLang] first writes the store and then emits:
    it reads the entry of the room, creates it with empty text when there
    is none, assigns the tag, and only then sends the tag as received to
    the other connections of the room. The text of every room is as
    before, and so is the entry of every other room. *)
Theorem updateLang_stores_then_relays
    (getUserRoom : Socket → option string)
    (getCustomId : string → option string)
    (socket : Socket) (tag : string) (w : World) (roomID customId : string) :
  truthy (getUserRoom socket) = Some roomID →
  truthy (getCustomId (id socket)) = Some customId →
  let w' := (updateLang getUserRoom getCustomId socket tag w).1 in
  (updateLang getUserRoom getCustomId socket tag w).2 = Returned ()
  ∧ (∃ before,
       trace w'
       = trace w ++ MapGet roomID :: before
           ++ [AssignLangId roomID tag;
               EmitToOthers socket roomID UPDATE_LANG (Text tag)]
       ∧ Forall isStoreAction before)
  ∧ langId <$> roomData w' !! roomID = Some tag
  ∧ (∀ r, textOf (roomData w') r = textOf (roomData w) r)
  ∧ (∀ r, r ≠ roomID → roomData w' !! r = roomData w !! r).
Proof.
  intros Hr Hc w'. unfold w'. rewrite (updateLang_run _ _ _ _ _ _ _ Hr Hc).
  simpl. split; [done|]. split.
  { eexists. split; [reflexivity|].
    destruct (roomData w !! roomID); repeat constructor. }
  split; [by rewrite lookup_insert_eq|]. split.
  - intros r. unfold textOf at 1. destruct (decide (roomID = r)) as [->|Hne].
    + by rewrite lookup_insert_eq.
    + by rewrite lookup_insert_ne.
  - intros r Hne. by apply lookup_insert_ne.
Qed.

Lemma updateLang_stores_then_relays_witness :
  langId <$> roomData (updateLang (λ _, Some "room") (λ _, Some "user")
                         {| id := "s1" |} "python"
                         {| roomData := ∅; trace := [] |}).1 !! "room"
  = Some "python".
Proof.
  pose proof (updateLang_stores_then_relays (λ _, Some "room")
                (λ _, Some "user") {| id := "s1" |} "python"
                {| roomData := ∅; trace := [] |} "room" "user"
                eq_refl eq_refl) as (_ & _ & H & _).
  exact H.
Defined.

(** X11. For a connection whose room and identity resolve, [syncLang]
    returns, leaves the store as it was, and answers the requester alone
    with an [UPDATE_LANG] event that carries the tag of the room, or
    ['html'] when the room has no entry or an empty tag; no entry is
    created. *)
Theorem syncLang_effect_free
    (getUserRoom : Socket → option string)
    (getCustomId : string → option string)
    (socket : Socket) (w : World) (roomID customId : string) :
  truthy (getUserRoom socket) = Some roomID →
  truthy (getCustomId (id socket)) = Some customId →
  let w' := (syncLang getUserRoom getCustomId socket w).1 in
  let tag := if bool_decide (langOf (roomData w) roomID = "")
             then "html" else langOf (roomData w) roomID in
  let reply := EmitTo (id socket) UPDATE_LANG (Text tag) in
  (syncLang getUserRoom getCustomId socket w).2 = Returned ()
  ∧ roomData w' = roomData w
  ∧ trace w' = trace w ++ [MapGet roomID; reply]
  ∧ (∀ members c, c ≠ id socket →
       inbox members c (trace w') = inbox members c (trace w)).
Proof.
  intros Hr Hc w' tag reply. unfold w'.
  rewrite (syncLang_run _ _ _ _ _ _ Hr Hc). simpl.
  split; [done|]. split; [done|]. split.
  - do 4 f_equal. unfold tag, langOf.
    by destruct (roomData w !! roomID) as [d|].
  - intros members c Hne. unfold inbox.
    rewrite filter_app.
    rewrite filter_cons_False by (simpl; apply not_elem_of_nil).
    rewrite filter_cons_False
      by (simpl; by intros ?%list_elem_of_singleton).
    by rewrite filter_nil, app_nil_r.
Qed.

Lemma syncLang_effect_free_witness :
  trace (syncLang (λ _, Some "room") (λ _, Some "user") {| id := "s1" |}
           {| roomData := ∅; trace := [] |}).1
  = [] ++ [MapGet "room"; EmitTo "s1" UPDATE_LANG (Text "html")].
Proof.
  pose proof (syncLang_effect_free (λ _, Some "room") (λ _, Some "user")
                {| id := "s1" |} {| roomData := ∅; trace := [] |}
                "room" "user" eq_refl eq_refl) as (_ & _ & H & _).
  exact H.
Defined.

(** X12. What a peer is told and what a later sync reads can differ: after
    an accepted [updateLang] with tag [tag], the peers of the room have
    been sent [tag] itself, and a [syncLang] of any connection of the same
    room then answers with [tag] when it is non-empty and with ['html']
    when it is the empty string. *)
Theorem syncLang_after_updateLang
    (getUserRoom : Socket → option string)
    (getCustomId : string → option string)
    (sender requester : Socket) (tag : string) (w : World)
    (roomID c1 c2 : string) :
  truthy (getUserRoom sender) = Some roomID →
  truthy (getCustomId (id sender)) = Some c1 →
  truthy (getUserRoom requester) = Some roomID →
  truthy (getCustomId (id requester)) = Some c2 →
  let w1 := (updateLang getUserRoom getCustomId sender tag w).1 in
  let w2 := (syncLang getUserRoom getCustomId requester w1).1 in
  last (trace w1) = Some (EmitToOthers sender roomID UPDATE_LANG (Text tag))
  ∧ last (trace w2)
    = Some (EmitTo (id requester) UPDATE_LANG
              (Text (if bool_decide (tag = "") then "html" else tag))).
Proof.
  intros Hr1 Hc1 Hr2 Hc2 w1 w2. unfold w2, w1.
  rewrite (updateLang_run _ _ _ _ _ _ _ Hr1 Hc1).
  rewrite (syncLang_run _ _ _ _ _ _ Hr2 Hc2). simpl. split.
  - rewrite last_app. by destruct (roomData w !! roomID).
  - by rewrite lookup_insert_eq, last_app.
Qed.

Lemma syncLang_after_updateLang_witness :
  last (trace (syncLang (λ _, Some "room") (λ _, Some "user") {| id := "s2" |}
                 (updateLang (λ _, Some "room") (λ _, Some "user")
                    {| id := "s1" |} ""
                    {| roomData := ∅; trace := [] |}).1).1)
  = Some (EmitTo "s2" UPDATE_LANG (Text "html")).
Proof.
  pose proof (syncLang_after_updateLang (λ _, Some "room") (λ _, Some "user")
                {| id := "s1" |} {| id := "s2" |} ""
                {| roomData := ∅; trace := [] |} "room" "user" "user"
                eq_refl eq_refl eq_refl eq_refl) as [_ H].
  exact H.
Defined.

(** X13. A room has an entry exactly from its first write to its
    deletion: after the store write of [updateCode] and after [setLang]
    [roomExists] returns [true], after [deleteRoom] it returns [false],
    and the reads [getCode] and [getLang] of any room leave its answer as
    it was. *)
Theorem roomExists_lifecycle (w : World) (roomID other T tag : string) :
  (roomExists roomID (storeCode roomID T w).1).2 = Returned true
  ∧ (roomExists roomID (setLang roomID tag w).1).2 = Returned true
  ∧ (roomExists roomID (deleteRoom roomID w).1).2 = Returned false
  ∧ (roomExists roomID (getCode other w).1).2 = (roomExists roomID w).2
  ∧ (roomExists roomID (getLang other w).1).2 = (roomExists roomID w).2.
Proof.
  destruct (storeCode_run roomID T w) as (w1 & -> & Hm1 & _).
  destruct (setLang_run roomID tag w) as (w2 & -> & Hm2).
  rewrite getCode_run, getLang_run. unfold roomExists. simpl.
  rewrite Hm1, Hm2, !lookup_insert_eq, lookup_delete_eq.
  by repeat split.
Qed.

(** X14. [deleteRoom] forgets one room and nothing else: afterwards
    [getLang] of the room returns ['html'], the entries of the other
    rooms are as before, and when an edit then stores a text for the
    room again the new entry has the default tag, whatever tag the room
    had. *)
Theorem deleteRoom_forgets_one_room (w : World) (roomID T : string) :
  let w1 := (deleteRoom roomID w).1 in
  (getLang roomID w1).2 = Returned "html"
  ∧ (∀ r, r ≠ roomID → roomData w1 !! r = roomData w !! r)
  ∧ roomData (storeCode roomID T w1).1 !! roomID
    = Some {| code := T; langId := "html" |}.
Proof.
  intros w1. unfold w1. split; [|split].
  - rewrite getLang_run. simpl. by rewrite lookup_delete_eq.
  - intros r Hne. simpl. by apply lookup_delete_ne.
  - destruct (storeCode_run roomID T (deleteRoom roomID w).1)
      as (w2 & -> & Hm & _).
    simpl in *. rewrite Hm, lookup_insert_eq. unfold langOf.
    by rewrite lookup_delete_eq.
Qed.

Lemma deleteRoom_forgets_one_room_witness :
  roomData (deleteRoom "a"
              {| roomData := {["b" := {| code := "c"; langId := "go" |}]};
                 trace := [] |}).1 !! "b"
  = Some {| code := "c"; langId := "go" |}.
Proof.
  pose proof (deleteRoom_forgets_one_room
                {| roomData := {["b" := {| code := "c"; langId := "go" |}]};
                   trace := [] |} "a" "") as (_ & H & _).
  rewrite H; [reflexivity|discriminate].
Defined.

(** X16. Edits take effect in the order of arrival, and a sync reads the
    outcome: when two accepted edits of the same room arrive one after
    the other and the applier returns for both, the room then holds the
    second applied to the result of the first, and a [syncCode] of a
    connection of the room sends exactly that text. *)
Theorem edits_apply_in_arrival_order
    (getUserRoom : Socket → option string)
    (getCustomId : string → option string)
    (first second : Socket) (op1 op2 : EditOp) (w : World)
    (roomID c1 c2 t1 t2 : string) :
  truthy (getCustomId (id first)) = Some c1 →
  truthy (getUserRoom first) = Some roomID →
  truthy (getCustomId (id second)) = Some c2 →
  truthy (getUserRoom second) = Some roomID →
  applyEdit (textOf (roomData w) roomID) op1 = Returned t1 →
  applyEdit t1 op2 = Returned t2 →
  let w1 := (updateCode getUserRoom getCustomId first op1 w).1 in
  let w2 := (updateCode getUserRoom getCustomId second op2 w1).1 in
  let w3 := (syncCode getUserRoom getCustomId second w2).1 in
  textOf (roomData w1) roomID = t1
  ∧ textOf (roomData w2) roomID = t2
  ∧ last (trace w3) = Some (EmitTo (id second) SYNC_CODE (Text t2)).
Proof.
  intros Hc1 Hr1 Hc2 Hr2 Ha1 Ha2 w1 w2 w3.
  destruct (updateCode_applied getUserRoom getCustomId first op1 w roomID c1
              t1 Hc1 Hr1 Ha1) as [_ Hm1].
  assert (textOf (roomData w1) roomID = t1) as Ht1.
  { unfold w1, textOf. by rewrite Hm1, lookup_insert_eq. }
  destruct (updateCode_applied getUserRoom getCustomId second op2 w1 roomID c2
              t2 Hc2 Hr2) as [_ Hm2].
  { by rewrite Ht1. }
  assert (textOf (roomData w2) roomID = t2) as Ht2.
  { unfold w2, textOf. by rewrite Hm2, lookup_insert_eq. }
  split; [done|]. split; [done|].
  unfold w3. rewrite (syncCode_run _ _ _ _ _ _ Hr2 Hc2). simpl.
  by rewrite last_app, Ht2.
Qed.

Lemma edits_apply_in_arrival_order_witness :
  textOf
    (roomData
       (updateCode (λ _, Some "room") (λ _, Some "user") {| id := "s2" |}
          ("Y", 1, 2, 1, 2)
          (updateCode (λ _, Some "room") (λ _, Some "user") {| id := "s1" |}
             ("X", 1, 1, 1, 1) {| roomData := ∅; trace := [] |}).1).1)
    "room"
  = "XY".
Proof.
  pose proof (edits_apply_in_arrival_order (λ _, Some "room")
                (λ _, Some "user") {| id := "s1" |} {| id := "s2" |}
                ("X", 1, 1, 1, 1) ("Y", 1, 2, 1, 2)
                {| roomData := ∅; trace := [] |} "room" "user" "user"
                "X" "XY" eq_refl eq_refl eq_refl eq_refl eq_refl eq_refl)
    as (_ & H & _).
  exact H.
Defined.

(** X17. The four handlers share one gate: when the room or the identity
    of the connection does not resolve — [undefined] or the empty string
    — [updateCode], [syncCode], [updateLang] and [syncLang] return without
    emitting anything and without touching the store. *)
Theorem handlers_drop_unresolved
    (getUserRoom : Socket → option string)
    (getCustomId : string → option string)
    (socket : Socket) (op : EditOp) (tag : string) (w : World) :
  truthy (getUserRoom socket) = None
  ∨ truthy (getCustomId (id socket)) = None →
  updateCode getUserRoom getCustomId socket op w = (w, Returned ())
  ∧ syncCode getUserRoom getCustomId socket w = (w, Returned ())
  ∧ updateLang getUserRoom getCustomId socket tag w = (w, Returned ())
  ∧ syncLang getUserRoom getCustomId socket w = (w, Returned ()).
Proof.
  intros H. unfold updateCode, syncCode, updateLang, syncLang.
  destruct H as [-> | ->].
  - by destruct (truthy (getCustomId (id socket))).
  - by destruct (truthy (getUserRoom socket)).
Qed.

Lemma handlers_drop_unresolved_witness :
  updateCode (λ _, Some "") (λ _, Some "user") {| id := "s1" |}
    ("X", 1, 1, 1, 1) {| roomData := ∅; trace := [] |}
  = ({| roomData := ∅; trace := [] |}, Returned ()).
Proof.
  pose proof (handlers_drop_unresolved (λ _, Some "") (λ _, Some "user")
                {| id := "s1" |} ("X", 1, 1, 1, 1) ""
                {| roomData := ∅; trace := [] |} (or_introl eq_refl))
    as [H _].
  exact H.
Defined.
